(** * mountinfo: filter-and-select pipeline over the mount table

    A shallow embedding of [src/mountinfo.c].  C strings are [string]
    values, a [char *] that may be [NULL] is an [option string], the
    [NULL]-terminated [char **] lists of [strlist.h] are [list string]
    ([NULL] being the empty list), a compiled [regex_t] is the matcher it
    denotes.  The statements of the C code run in a small state-and-error
    monad over the memory the applet touches: [errno], the [struct args]
    pointed to by [args], the list pointed to by [list], and standard
    output.  Passing [NULL] to [strcmp] or [regexec] is undefined
    behaviour and is the outcome [Fault]. *)

From Stdlib Require Import String Ascii List ZArith NArith Bool Lia.
From Stdlib Require Import Sorted Permutation.
Import ListNotations.

Open Scope string_scope.
Open Scope Z_scope.

(** ** Data model *)

Inductive mount_type : Set :=
| mount_from
| mount_to
| mount_fstype
| mount_options.

(** A compiled regular expression, seen through [regexec]: the set of
    strings it matches. *)
Definition regex_t : Type := string -> bool.

(** [char *]: [None] is the [NULL] pointer. *)
Definition char_p : Type := option string.

(** [char **] as used by strlist: [NULL] is the empty list. *)
Definition strlist : Type := list string.

(** [struct args]; the field [mount_type] is [args_mount_type] here,
    the enumeration keeps the name. *)
Record args : Type := mkargs {
  node_regex : option regex_t;
  skip_node_regex : option regex_t;
  fstype_regex : option regex_t;
  skip_fstype_regex : option regex_t;
  options_regex : option regex_t;
  skip_options_regex : option regex_t;
  mounts : strlist;
  args_mount_type : mount_type
}.

(** The memory the applet reads and writes. *)
Record mem : Type := mkmem {
  m_errno : Z;
  m_args : args;
  m_list : strlist;
  m_stdout : string
}.

Definition ENOENT : Z := 2.
Definition EINVAL : Z := 22.
Definition EXIT_SUCCESS : Z := 0.
Definition EXIT_FAILURE : Z := 1.
Definition REG_NOMATCH : Z := 1.

(** ** The monad of C statements *)

Inductive outcome (A : Type) : Type :=
| Ret (a : A) (m : mem)        (* normal completion *)
| Exit (status : Z) (m : mem)  (* the process called exit *)
| Fault                        (* undefined behaviour: NULL dereference *)
| OutOfFuel.                   (* a loop model ran out of fuel *)

Arguments Ret {A} a m.
Arguments Exit {A} status m.
Arguments Fault {A}.
Arguments OutOfFuel {A}.

Definition M (A : Type) : Type := mem -> outcome A.

Definition ret {A : Type} (a : A) : M A := fun m => Ret a m.

Definition bind {A B : Type} (c : M A) (k : A -> M B) : M B :=
  fun m =>
    match c m with
    | Ret a m' => k a m'
    | Exit st m' => Exit st m'
    | Fault => Fault
    | OutOfFuel => OutOfFuel
    end.

Notation "x <- c ;; k" := (bind c (fun x => k))
  (at level 61, c at next level, right associativity).
Notation "c ;;; k" := (bind c (fun _ => k))
  (at level 61, right associativity).

Definition fault {A : Type} : M A := fun _ => Fault.
Definition exit {A : Type} (status : Z) : M A := fun m => Exit status m.

Definition set_errno (e : Z) : M unit :=
  fun m => Ret tt (mkmem e (m_args m) (m_list m) (m_stdout m)).
Definition get_args : M args := fun m => Ret (m_args m) m.
Definition get_list : M strlist := fun m => Ret (m_list m) m.
Definition set_list (l : strlist) : M unit :=
  fun m => Ret tt (mkmem (m_errno m) (m_args m) l (m_stdout m)).

(** [printf ("%s\n", n)] *)
Definition printf_line (n : string) : M unit :=
  fun m => Ret tt (mkmem (m_errno m) (m_args m) (m_list m)
                         (m_stdout m ++ n ++ String "010" "")).

(** Modelled from the spec: [eerrorx] ([einfo.h] is not under src/):
    "abort the invocation with a diagnostic and nonzero status". *)
Definition eerrorx {A : Type} : M A := exit EXIT_FAILURE.

(** ** libc primitives *)

(** [strcmp] on two valid strings: bytes compare as unsigned char. *)
Definition strcmp (s1 s2 : string) : Z :=
  match String.compare s1 s2 with
  | Lt => -1
  | Eq => 0
  | Gt => 1
  end.

(** [strcmp] on pointers: a [NULL] argument is undefined behaviour. *)
Definition strcmp_p (s1 s2 : char_p) : M Z :=
  match s1, s2 with
  | Some a, Some b => ret (strcmp a b)
  | _, _ => fault
  end.

(** [regexec (preg, string, 0, NULL, 0)]: 0 on a match. *)
Definition regexec (preg : regex_t) (s : char_p) : M Z :=
  match s with
  | Some str => ret (if preg str then 0 else REG_NOMATCH)
  | None => fault
  end.

(** ** strlist *)

(** Modelled from the spec: [rc_strlist_addsortc] ([strlist.c] is not
    under src/): "inserts value into the set at the position that keeps
    the set's internal order ascending by case-sensitive byte/codepoint
    comparison, skipping insertion (no-op) if value already present". *)
Fixpoint insert_sorted (item : string) (l : strlist) : strlist :=
  match l with
  | [] => [item]
  | x :: l' =>
      if strcmp x item <? 0 then x :: insert_sorted item l'
      else item :: x :: l'
  end.

Definition rc_strlist_addsortc (l : strlist) (item : string) : strlist :=
  if existsb (String.eqb item) l then l else insert_sorted item l.

(** Modelled from the spec: [rc_strlist_reverse] ([strlist.c] is not
    under src/): "the set is reversed in place". *)
Definition rc_strlist_reverse (l : strlist) : strlist := rev l.

(** ** process_mount *)

(** [re && regexec (re, s, 0, NULL, 0) != 0] *)
Definition regex_nomatch (re : option regex_t) (s : char_p) : M bool :=
  match re with
  | None => ret false
  | Some preg => c <- regexec preg s ;; ret (negb (c =? 0))
  end.

(** [re && regexec (re, s, 0, NULL, 0) == 0] *)
Definition regex_match (re : option regex_t) (s : char_p) : M bool :=
  match re with
  | None => ret false
  | Some preg => c <- regexec preg s ;; ret (c =? 0)
  end.

(** The [STRLIST_FOREACH (args->mounts, mnt, j)] loop with its [break];
    the result is [found].  The macro (rc.h) visits the entries of the
    list in order. *)
Fixpoint mounts_found (l : strlist) (to : char_p) : M bool :=
  match l with
  | [] => ret false
  | mnt :: l' =>
      c <- strcmp_p (Some mnt) to ;;
      if c =? 0 then ret true else mounts_found l' to
  end.

(** [if (args->mounts) { ... if (! found) return (-1); }]: the result is
    whether the function returns here. *)
Definition mounts_reject (l : strlist) (to : char_p) : M bool :=
  match l with
  | [] => ret false
  | _ :: _ => found <- mounts_found l to ;; ret (negb found)
  end.

(** The [switch (args->mount_type)]; its [default] branch ([p = NULL],
    [errno = EINVAL]) is not reachable from the four enumerators. *)
Definition select_field (t : mount_type) (from to fstype options : char_p)
  : char_p :=
  match t with
  | mount_from => from
  | mount_to => to
  | mount_fstype => fstype
  | mount_options => options
  end.

(** [process_mount (list, args, from, to, fstype, options)]; [linux]
    says whether [__linux__] is defined. *)
Definition process_mount (linux : bool) (from to fstype options : char_p)
  : M Z :=
  set_errno ENOENT ;;;
  a <- get_args ;;
  rootfs <- (if linux
             then c <- strcmp_p fstype (Some "rootfs") ;; ret (c =? 0)
             else ret false) ;;
  if rootfs then ret (-1) else
  b <- regex_nomatch (node_regex a) from ;;
  if b then ret 1 else
  b <- regex_match (skip_node_regex a) from ;;
  if b then ret 1 else
  b <- regex_nomatch (fstype_regex a) fstype ;;
  if b then ret (-1) else
  b <- regex_match (skip_fstype_regex a) fstype ;;
  if b then ret (-1) else
  b <- regex_nomatch (options_regex a) options ;;
  if b then ret (-1) else
  b <- regex_match (skip_options_regex a) options ;;
  if b then ret (-1) else
  b <- mounts_reject (mounts a) to ;;
  if b then ret (-1) else
  match select_field (args_mount_type a) from to fstype options with
  | Some p =>
      set_errno 0 ;;;
      l <- get_list ;;
      set_list (rc_strlist_addsortc l p) ;;;
      ret 0
  | None => ret (-1)
  end.

(** ** find_mounts, table-file realization ([__linux__]) *)

Definition PATH_MAX : N := 4096%N.

(** [sizeof (buffer)] for [char buffer[PATH_MAX * 3]] *)
Definition buffer_size : N := (PATH_MAX * 3)%N.

(** The bytes one [fgets] call stores, and the rest of the stream: at
    most [n] bytes, stopping after a newline or at end of file. *)
Fixpoint fgets_read (n : N) (stream : string) : string * string :=
  match stream with
  | EmptyString => (EmptyString, EmptyString)
  | String c stream' =>
      if (n =? 0)%N then (EmptyString, stream)
      else if Ascii.eqb c "010" then (String c EmptyString, stream')
      else
        let (l, r) := fgets_read (N.pred n) stream' in
        (String c l, r)
  end.

(** [fgets (buffer, size, fp)]: [None] is the [NULL] returned at end of
    file; otherwise the buffer contents and the rest of the stream. *)
Definition fgets (size : N) (stream : string) : option (string * string) :=
  match stream with
  | EmptyString => None
  | String _ _ => Some (fgets_read (size - 1)%N stream)
  end.

(** The C string held by a buffer: its bytes up to the first NUL. *)
Fixpoint c_str (buffer : string) : string :=
  match buffer with
  | EmptyString => EmptyString
  | String c buffer' =>
      if Ascii.eqb c "000" then EmptyString else String c (c_str buffer')
  end.

(** [strchr (delim, c) != NULL] *)
Fixpoint is_delim (delim : string) (c : ascii) : bool :=
  match delim with
  | EmptyString => false
  | String d delim' => Ascii.eqb c d || is_delim delim' c
  end.

(** The token [strsep] cuts off a valid string and the new [*stringp]. *)
Fixpoint strsep_scan (delim : string) (s : string) : string * char_p :=
  match s with
  | EmptyString => (EmptyString, None)
  | String c s' =>
      if is_delim delim c then (EmptyString, Some s')
      else
        let (tok, p) := strsep_scan delim s' in
        (String c tok, p)
  end.

(** [strsep (&p, delim)]: the returned token and the updated [p]. *)
Definition strsep (p : char_p) (delim : string) : char_p * char_p :=
  match p with
  | None => (None, None)
  | Some s => let (tok, p') := strsep_scan delim s in (Some tok, p')
  end.

(** The four [strsep] calls of one iteration: [from], [to], [fst],
    [opts]. *)
Definition split_fields (buffer : string)
  : char_p * char_p * char_p * char_p :=
  let p := Some (c_str buffer) in
  let (from, p) := strsep p " " in
  let (to, p) := strsep p " " in
  let (fst, p) := strsep p " " in
  let (opts, p) := strsep p " " in
  (from, to, fst, opts).

(** [while (fgets (buffer, sizeof (buffer), fp)) { ... }] over the rest
    [fp] of the stream.  Every iteration consumes at least one byte, so
    [String.length fp] iterations are enough (see [find_mounts_while_fuel]). *)
Fixpoint find_mounts_while (fuel : nat) (fp : string) : M unit :=
  match fgets buffer_size fp with
  | None => ret tt
  | Some (buffer, fp') =>
      match fuel with
      | O => fun _ => OutOfFuel
      | S fuel' =>
          let '(from, to, fst, opts) := split_fields buffer in
          process_mount true from to fst opts ;;;
          find_mounts_while fuel' fp'
      end
  end.

(** The [__linux__] [find_mounts]; [proc_mounts] is the content of
    /proc/mounts, [None] when [fopen] fails. *)
Definition find_mounts_linux (proc_mounts : option string) : M strlist :=
  match proc_mounts with
  | None => eerrorx
  | Some fp =>
      set_list [] ;;;
      find_mounts_while (String.length fp) fp ;;;
      get_list
  end.

(** ** find_mounts, system-call realization ([BSD]) *)

(** The constants of <sys/mount.h> the applet uses.  [MNT_GJOURNAL] is
    optional ([#ifdef MNT_GJOURNAL]). *)
Class sys_mount_h : Type := {
  MNT_ASYNC : Z;
  MNT_EXPORTED : Z;
  MNT_LOCAL : Z;
  MNT_NOATIME : Z;
  MNT_NOEXEC : Z;
  MNT_NOSUID : Z;
  MNT_NOSYMFOLLOW : Z;
  MNT_QUOTA : Z;
  MNT_RDONLY : Z;
  MNT_SYNCHRONOUS : Z;
  MNT_UNION : Z;
  MNT_NOCLUSTERR : Z;
  MNT_NOCLUSTERW : Z;
  MNT_SUIDDIR : Z;
  MNT_SOFTDEP : Z;
  MNT_MULTILABEL : Z;
  MNT_ACLS : Z;
  MNT_GJOURNAL : option Z;
  MNT_VISFLAGMASK : Z
}.

(** A sample header, with flag values in the style of FreeBSD's; only
    the closed examples use it. *)
Definition sample_mount_h : sys_mount_h := {|
  MNT_ASYNC := 0x40;
  MNT_EXPORTED := 0x100;
  MNT_LOCAL := 0x1000;
  MNT_NOATIME := 0x10000000;
  MNT_NOEXEC := 0x4;
  MNT_NOSUID := 0x8;
  MNT_NOSYMFOLLOW := 0x400000;
  MNT_QUOTA := 0x2000;
  MNT_RDONLY := 0x1;
  MNT_SYNCHRONOUS := 0x2;
  MNT_UNION := 0x20;
  MNT_NOCLUSTERR := 0x40000000;
  MNT_NOCLUSTERW := 0x80000000;
  MNT_SUIDDIR := 0x100000;
  MNT_SOFTDEP := 0x200000;
  MNT_MULTILABEL := 0x4000000;
  MNT_ACLS := 0x8000000;
  MNT_GJOURNAL := Some 0x2000000;
  MNT_VISFLAGMASK := 0xfef0ffff
|}.

(** The fields of [struct statfs] the applet reads; the three names are
    character arrays, never [NULL]. *)
Record statfs : Type := mkstatfs {
  f_flags : Z;
  f_mntfromname : string;
  f_mntonname : string;
  f_fstypename : string
}.

Record opt : Type := mkopt {
  o_opt : Z;
  o_name : string
}.

(** Conversion to a 32-bit [int], two's complement. *)
Definition to_int (z : Z) : Z := (z + 2 ^ 31) mod 2 ^ 32 - 2 ^ 31.

Section SysMount.

Context {hdr : sys_mount_h}.

(** [optnames[]] without its [{ 0, NULL }] sentinel, which is the end of
    the list. *)
Definition optnames : list opt :=
  [ mkopt (to_int MNT_ASYNC) "asynchronous";
    mkopt (to_int MNT_EXPORTED) "NFS exported";
    mkopt (to_int MNT_LOCAL) "local";
    mkopt (to_int MNT_NOATIME) "noatime";
    mkopt (to_int MNT_NOEXEC) "noexec";
    mkopt (to_int MNT_NOSUID) "nosuid";
    mkopt (to_int MNT_NOSYMFOLLOW) "nosymfollow";
    mkopt (to_int MNT_QUOTA) "with quotas";
    mkopt (to_int MNT_RDONLY) "read-only";
    mkopt (to_int MNT_SYNCHRONOUS) "synchronous";
    mkopt (to_int MNT_UNION) "union";
    mkopt (to_int MNT_NOCLUSTERR) "noclusterr";
    mkopt (to_int MNT_NOCLUSTERW) "noclusterw";
    mkopt (to_int MNT_SUIDDIR) "suiddir";
    mkopt (to_int MNT_SOFTDEP) "soft-updates";
    mkopt (to_int MNT_MULTILABEL) "multilabel";
    mkopt (to_int MNT_ACLS) "acls" ]
  ++ match MNT_GJOURNAL with
     | Some g => [ mkopt (to_int g) "gjournal" ]
     | None => []
     end.

(** [for (o = optnames; flags && o->o_opt; o++) { ... }]: the value of
    [options] when the loop ends. *)
Fixpoint optnames_for (o : list opt) (flags : Z) (options : char_p)
  : char_p :=
  match o with
  | [] => options
  | e :: o' =>
      if (flags =? 0) || (o_opt e =? 0) then options
      else
        let options' :=
          if Z.land flags (o_opt e) =? 0 then options
          else
            match options with
            | None => Some (o_name e)
            | Some s => Some (s ++ "," ++ o_name e)
            end in
        optnames_for o' (Z.land flags (Z.lnot (o_opt e))) options'
  end.

(** [for (i = 0; i < nmnts; i++) { ... }] *)
Fixpoint find_mounts_for (mnts : list statfs) : M unit :=
  match mnts with
  | [] => ret tt
  | mnt :: mnts' =>
      let flags := to_int (Z.land (f_flags mnt) MNT_VISFLAGMASK) in
      let options := optnames_for optnames flags None in
      process_mount false
        (Some (f_mntfromname mnt))
        (Some (f_mntonname mnt))
        (Some (f_fstypename mnt))
        options ;;;
      find_mounts_for mnts'
  end.

(** The [BSD] [find_mounts]; [mnts] is what [getmntinfo] yields, no
    entry being its failure. *)
Definition find_mounts_bsd (mnts : list statfs) : M strlist :=
  match mnts with
  | [] => eerrorx
  | _ :: _ =>
      set_list [] ;;;
      find_mounts_for mnts ;;;
      get_list
  end.

(** ** mountinfo *)

(** The platform the applet is built for, with the mount table it finds
    there. *)
Inductive os : Type :=
| linux (proc_mounts : option string)
| bsd (mnts : list statfs).

Definition find_mounts (o : os) : M strlist :=
  match o with
  | linux proc_mounts => find_mounts_linux proc_mounts
  | bsd mnts => find_mounts_bsd mnts
  end.

(** [STRLIST_FOREACH (nodes, n, i) { ... }] with its two [continue]s;
    [quiet] is what [rc_is_env ("RC_QUIET", "yes")] returns, [result]
    the variable of that name. *)
Fixpoint mountinfo_foreach (point_regex skip_point_regex : option regex_t)
  (quiet : bool) (nodes : strlist) (result : Z) : M Z :=
  match nodes with
  | [] => ret result
  | n :: nodes' =>
      b <- regex_nomatch point_regex (Some n) ;;
      if b then
        mountinfo_foreach point_regex skip_point_regex quiet nodes' result
      else
      b <- regex_match skip_point_regex (Some n) ;;
      if b then
        mountinfo_foreach point_regex skip_point_regex quiet nodes' result
      else
      (if negb quiet then printf_line n else ret tt) ;;;
      mountinfo_foreach point_regex skip_point_regex quiet nodes'
        EXIT_SUCCESS
  end.

(** [mountinfo] from the call of [find_mounts] on: the option loop has
    filled [args], [point_regex] and [skip_point_regex].  The calls of
    [regfree] and [rc_strlist_free] release memory and have no
    counterpart here. *)
Definition mountinfo (o : os) (a : args)
  (point_regex skip_point_regex : option regex_t) (quiet : bool)
  : outcome unit :=
  (nodes <- find_mounts o ;;
   let nodes := rc_strlist_reverse nodes in
   result <- mountinfo_foreach point_regex skip_point_regex quiet nodes
               EXIT_FAILURE ;;
   exit result) (mkmem 0 a [] EmptyString).

End SysMount.

(** ** The specification's reading of the pipeline *)

(** *** Predicate set (spec 4.1) *)

(** What one check of the predicate set says about a record. *)
Inductive verdict : Set :=
| Pass
| Reject (code : Z)
| Undefined.

(** "a record whose fstype equals the synthetic bootstrap filesystem
    type is unconditionally rejected" (reference platform only). *)
Definition platform_artifact (on_linux : bool) (fstype : char_p) : verdict :=
  if on_linux then
    match fstype with
    | Some f => if String.eqb f "rootfs" then Reject (-1) else Pass
    | None => Undefined
    end
  else Pass.

(** "if set, record is rejected if the field does NOT match". *)
Definition include_check (re : option regex_t) (field : char_p) (code : Z)
  : verdict :=
  match re, field with
  | None, _ => Pass
  | Some _, None => Undefined
  | Some preg, Some s => if preg s then Pass else Reject code
  end.

(** "if set, record is rejected if the field DOES match". *)
Definition exclude_check (re : option regex_t) (field : char_p) (code : Z)
  : verdict :=
  match re, field with
  | None, _ => Pass
  | Some _, None => Undefined
  | Some preg, Some s => if preg s then Reject code else Pass
  end.

(** "if non-empty, reject unless target exactly equals one member". *)
Definition targets_check (targets : strlist) (target : char_p) : verdict :=
  match targets, target with
  | [], _ => Pass
  | _ :: _, None => Undefined
  | _ :: _, Some t =>
      if existsb (String.eqb t) targets then Pass else Reject (-1)
  end.

(** Steps 1 to 8 of the evaluation order, with the code each rejection
    returns. *)
Definition predicate_checks (on_linux : bool) (a : args)
  (from to fstype options : char_p) : list verdict :=
  [ platform_artifact on_linux fstype;
    include_check (node_regex a) from 1;
    exclude_check (skip_node_regex a) from 1;
    include_check (fstype_regex a) fstype (-1);
    exclude_check (skip_fstype_regex a) fstype (-1);
    include_check (options_regex a) options (-1);
    exclude_check (skip_options_regex a) options (-1);
    targets_check (mounts a) to ].

(** Short-circuit evaluation: the first check that does not pass
    decides; the checks after it are not looked at. *)
Fixpoint first_verdict (checks : list verdict) : verdict :=
  match checks with
  | [] => Pass
  | Pass :: checks' => first_verdict checks'
  | v :: _ => v
  end.

Definition with_errno (e : Z) (m : mem) : mem :=
  mkmem e (m_args m) (m_list m) (m_stdout m).

Definition with_list (l : strlist) (m : mem) : mem :=
  mkmem (m_errno m) (m_args m) l (m_stdout m).

Definition with_stdout (s : string) (m : mem) : mem :=
  mkmem (m_errno m) (m_args m) (m_list m) s.

(** The decision of the predicate set, and its one effect besides
    [errno]: step 9 accumulates the selected field. *)
Definition predicate_set (on_linux : bool)
  (from to fstype options : char_p) : M Z :=
  fun m =>
    let a := m_args m in
    match first_verdict
            (predicate_checks on_linux a from to fstype options) with
    | Undefined => Fault
    | Reject code => Ret code (with_errno ENOENT m)
    | Pass =>
        match select_field (args_mount_type a) from to fstype options with
        | Some p =>
            Ret 0 (with_list (rc_strlist_addsortc (m_list m) p)
                     (with_errno 0 m))
        | None => Ret (-1) (with_errno ENOENT m)
        end
    end.

(** *** Selection accumulator (spec 4.3) *)

(** Ascending and descending case-sensitive byte order. *)
Definition str_lt (a b : string) : Prop := strcmp a b < 0.
Definition str_gt (a b : string) : Prop := strcmp b a < 0.

Definition ascending (l : strlist) : Prop := StronglySorted str_lt l.
Definition descending (l : strlist) : Prop := StronglySorted str_gt l.

(** *** Point filter and output stage (spec 4.4, 4.5) *)

(** "if pointInclude is set and the value does not match, skip; if
    pointExclude is set and the value matches, skip; otherwise the value
    survives". *)
Definition point_survives (pointInclude pointExclude : option regex_t)
  (value : string) : bool :=
  match pointInclude with
  | Some preg => preg value
  | None => true
  end
  &&
  match pointExclude with
  | Some preg => negb (preg value)
  | None => true
  end.

(** "write the value followed by a newline", for each value in order. *)
Fixpoint emit_lines (values : strlist) : string :=
  match values with
  | [] => EmptyString
  | v :: values' => v ++ String "010" (emit_lines values')
  end.

(** *** Mount-table lines (spec 4.2) *)

Fixpoint all_chars (P : ascii -> bool) (s : string) : bool :=
  match s with
  | EmptyString => true
  | String c s' => P c && all_chars P s'
  end.

Definition not_nl (c : ascii) : bool := negb (Ascii.eqb c "010").
Definition not_nul (c : ascii) : bool := negb (Ascii.eqb c "000").
Definition not_space (c : ascii) : bool := negb (Ascii.eqb c " ").

(** The text of a line before its newline. *)
Definition line_text (s : string) : bool :=
  all_chars (fun c => not_nl c && not_nul c) s.

(** One field of a line: line text without a space. *)
Definition is_field (s : string) : bool :=
  all_chars (fun c => not_space c && (not_nl c && not_nul c)) s.

Definition nl : string := String "010" EmptyString.

(** A line fits the buffer of [find_mounts] with its newline. *)
Definition fits_buffer (text : string) : Prop :=
  (N.of_nat (String.length text) < buffer_size - 1)%N.

(** The initial memory of [mountinfo]. *)
Definition initial_mem (a : args) : mem := mkmem 0 a [] EmptyString.

(** What a run of the record loop keeps: the configuration, standard
    output, the values accumulated so far, and the order of the list. *)
Definition preserved (m m' : mem) : Prop :=
  m_args m' = m_args m /\
  m_stdout m' = m_stdout m /\
  incl (m_list m) (m_list m') /\
  (ascending (m_list m) -> ascending (m_list m')).

(** The text of a mount-table line of three, four, and five or more
    fields separated by single spaces. *)
Definition line3 (from to fst : string) : string :=
  from ++ " " ++ to ++ " " ++ fst.

Definition line4 (from to fst opts : string) : string :=
  from ++ " " ++ to ++ " " ++ fst ++ " " ++ opts.

Definition line5 (from to fst opts extra : string) : string :=
  from ++ " " ++ to ++ " " ++ fst ++ " " ++ opts ++ " " ++ extra.

(** The accumulated list an outcome of [find_mounts] carries. *)
Definition nodes_of (o : outcome strlist) : option strlist :=
  match o with
  | Ret nodes _ => Some nodes
  | _ => None
  end.

(** "the line is skipped": the table accumulates what it accumulates
    without the line. *)
Definition line_skipped (a : args) (line : string) : Prop :=
  forall before after,
    nodes_of (find_mounts_linux (Some (before ++ line ++ after))
                (initial_mem a))
    = nodes_of (find_mounts_linux (Some (before ++ after)) (initial_mem a)).

(** ** Sample inputs *)

(** A configuration with no filter, selecting the field [t]. *)
Definition no_filters (t : mount_type) : args :=
  mkargs None None None None None None [] t.

(** The scenario of the specification, as /proc/mounts shows it. *)
Definition scenario_table : string :=
  "/dev/sda1 / ext4 rw,relatime 0 0" ++ nl ++
  "tmpfs /run tmpfs rw,nosuid 0 0" ++ nl.

(** Two mounts of the same filesystem type. *)
Definition two_ext4_table : string :=
  "/dev/sda1 / ext4 rw,relatime 0 0" ++ nl ++
  "/dev/sda2 /home ext4 rw,relatime 0 0" ++ nl.

(** A line of three fields. *)
Definition short_line : string := "tmpfs /run tmpfs" ++ nl.

(** The regular expression [^ext], through the strings it matches. *)
Definition starts_with_ext : regex_t := String.prefix "ext".



(** The targets of the specification's example, and a memory holding
    them. *)
Definition data_targets : strlist := ["/mnt/dat"; "/mnt/data2"].

Definition data_mem : mem :=
  initial_mem (mkargs None None None None None None data_targets mount_to).

(** A mount entry with no visible flag set, and one whose only visible
    flag has no name in the table. *)
Definition plain_entry : statfs := mkstatfs 0 "/dev/ad0s1a" "/" "ufs".
Definition unnamed_flag_entry : statfs :=
  mkstatfs 0x4000 "/dev/ad0s1a" "/" "ufs".

(** ** Reading the record loops *)

(** One record as [process_mount] receives it: [from], [to], [fstype],
    [options]. *)
Definition record : Type := (char_p * char_p * char_p * char_p)%type.

(** The calls of [process_mount] a record loop makes, in order; the
    results are dropped as [find_mounts] drops them. *)
Fixpoint process_records (on_linux : bool) (rs : list record) : M unit :=
  match rs with
  | [] => ret tt
  | (from, to, fstype, options) :: rs' =>
      process_mount on_linux from to fstype options ;;;
      process_records on_linux rs'
  end.

(** What the checks say about a record. *)
Definition record_verdict (on_linux : bool) (a : args) (r : record)
  : verdict :=
  let '(from, to, fstype, options) := r in
  first_verdict (predicate_checks on_linux a from to fstype options).

(** The value an accepted record hands to the accumulator. *)
Definition record_value (on_linux : bool) (a : args) (r : record)
  : list string :=
  let '(from, to, fstype, options) := r in
  match record_verdict on_linux a r with
  | Pass =>
      match select_field (args_mount_type a) from to fstype options with
      | Some p => [p]
      | None => []
      end
  | _ => []
  end.

Definition accepted_values (on_linux : bool) (a : args) (rs : list record)
  : list string :=
  flat_map (record_value on_linux a) rs.

(** A record none of whose fields is [NULL]. *)
Definition present (from to fstype options : string) : record :=
  (Some from, Some to, Some fstype, Some options).

(** The node regexes reject a source. *)
Definition node_rejects (a : args) (from : string) : bool :=
  match node_regex a with
  | Some preg => negb (preg from)
  | None => false
  end
  ||
  match skip_node_regex a with
  | Some preg => preg from
  | None => false
  end.

(** The record the system-call realization makes of a mount entry. *)
Definition statfs_record {hdr : sys_mount_h} (mnt : statfs) : record :=
  (Some (f_mntfromname mnt),
   Some (f_mntonname mnt),
   Some (f_fstypename mnt),
   optnames_for optnames
     (to_int (Z.land (f_flags mnt) MNT_VISFLAGMASK)) None).

(** A line of /proc/mounts as the kernel writes it: four fields and
    more text, separated by single spaces. *)
Record proc_line : Type := mkline {
  pl_from : string;
  pl_to : string;
  pl_fst : string;
  pl_opts : string;
  pl_extra : string
}.

Definition proc_line_text (l : proc_line) : string :=
  line5 (pl_from l) (pl_to l) (pl_fst l) (pl_opts l) (pl_extra l).

Definition proc_line_ok (l : proc_line) : Prop :=
  is_field (pl_from l) = true /\ is_field (pl_to l) = true /\
  is_field (pl_fst l) = true /\ is_field (pl_opts l) = true /\
  line_text (pl_extra l) = true /\ fits_buffer (proc_line_text l).

Definition proc_line_record (l : proc_line) : record :=
  present (pl_from l) (pl_to l) (pl_fst l) (pl_opts l).

(** The content of a table made of such lines. *)
Fixpoint proc_table (ls : list proc_line) : string :=
  match ls with
  | [] => EmptyString
  | l :: ls' => proc_line_text l ++ nl ++ proc_table ls'
  end.

(** The entries of a flag-name table that a flag word meets. *)
Definition named_flags (table : list opt) (flags : Z) : list opt :=
  filter (fun e => negb (Z.land flags (o_opt e) =? 0)) table.

(** Names joined with commas; [NULL] when there is no name. *)
Definition comma_joined (names : list string) : char_p :=
  match names with
  | [] => None
  | _ :: _ => Some (String.concat "," names)
  end.

(** The flags of a table are not 0 and share no bit. *)
Definition distinct_flags (table : list opt) : Prop :=
  Forall (fun e => o_opt e <> 0) table
  /\ ForallOrdPairs (fun x y => Z.land (o_opt x) (o_opt y) = 0) table.

(** The number of spaces in a string. *)
Fixpoint spaces (s : string) : nat :=
  match s with
  | EmptyString => O
  | String c s' => if Ascii.eqb c " " then S (spaces s') else spaces s'
  end.

(** ** get_regex and the option loops of mountinfo *)

(** Modelled from the spec: [rc_strlist_add] ([strlist.c] is not under
    src/): a positional argument is "added to targets". *)
Definition rc_strlist_add (l : strlist) (item : string) : strlist :=
  (l ++ [item])%list.

(** The locals of [mountinfo] that the option loops fill. *)
Record locals : Type := mklocals {
  l_args : args;
  l_point_regex : option regex_t;
  l_skip_point_regex : option regex_t
}.

(** After [memset (&args, 0, sizeof (struct args))] and
    [args.mount_type = mount_to]. *)
Definition locals_init : locals :=
  mklocals (mkargs None None None None None None [] mount_to) None None.

Definition set_node_regex (reg : regex_t) (a : args) : args :=
  mkargs (Some reg) (skip_node_regex a) (fstype_regex a)
    (skip_fstype_regex a) (options_regex a) (skip_options_regex a)
    (mounts a) (args_mount_type a).

Definition set_skip_node_regex (reg : regex_t) (a : args) : args :=
  mkargs (node_regex a) (Some reg) (fstype_regex a)
    (skip_fstype_regex a) (options_regex a) (skip_options_regex a)
    (mounts a) (args_mount_type a).

Definition set_fstype_regex (reg : regex_t) (a : args) : args :=
  mkargs (node_regex a) (skip_node_regex a) (Some reg)
    (skip_fstype_regex a) (options_regex a) (skip_options_regex a)
    (mounts a) (args_mount_type a).

Definition set_skip_fstype_regex (reg : regex_t) (a : args) : args :=
  mkargs (node_regex a) (skip_node_regex a) (fstype_regex a)
    (Some reg) (options_regex a) (skip_options_regex a)
    (mounts a) (args_mount_type a).

Definition set_options_regex (reg : regex_t) (a : args) : args :=
  mkargs (node_regex a) (skip_node_regex a) (fstype_regex a)
    (skip_fstype_regex a) (Some reg) (skip_options_regex a)
    (mounts a) (args_mount_type a).

Definition set_skip_options_regex (reg : regex_t) (a : args) : args :=
  mkargs (node_regex a) (skip_node_regex a) (fstype_regex a)
    (skip_fstype_regex a) (options_regex a) (Some reg)
    (mounts a) (args_mount_type a).

Definition set_mounts (l : strlist) (a : args) : args :=
  mkargs (node_regex a) (skip_node_regex a) (fstype_regex a)
    (skip_fstype_regex a) (options_regex a) (skip_options_regex a)
    l (args_mount_type a).

Definition set_mount_type (t : mount_type) (a : args) : args :=
  mkargs (node_regex a) (skip_node_regex a) (fstype_regex a)
    (skip_fstype_regex a) (options_regex a) (skip_options_regex a)
    (mounts a) t.

Definition with_args (a : args) (st : locals) : locals :=
  mklocals a (l_point_regex st) (l_skip_point_regex st).

(** [argv[optind][0] == '/']; the first byte of an empty argument is
    its NUL. *)
Definition absolute (arg : string) : bool :=
  match arg with
  | String c _ => Ascii.eqb c "/"
  | EmptyString => false
  end.

Section Options.

(** [regcomp (reg, string, REG_EXTENDED | REG_NOSUB)]: the expression
    it compiles when its result is 0, [None] otherwise. *)
Variable regcomp : string -> option regex_t.

(** [case_RC_COMMON_GETOPT] ([_usage.h] is not under src/), taken as
    given: for an option that is none of the applet's own, [Some
    status] when the macro leaves the process with that status, [None]
    when the loop goes on. *)
Variable case_RC_COMMON_GETOPT : ascii -> option Z.

Context {hdr : sys_mount_h}.

(** [get_regex (string)] *)
Definition get_regex (s : string) : M regex_t :=
  match regcomp s with
  | Some reg => ret reg
  | None => eerrorx
  end.

(** The [switch (opt)] of the option loop; [DO_REG (_var)] is
    [_var = get_regex (optarg)], the [free] before it has no
    counterpart here. *)
Definition mountinfo_switch (opt : ascii) (optarg : string) (st : locals)
  : M locals :=
  let a := l_args st in
  if Ascii.eqb opt "f" then
    reg <- get_regex optarg ;; ret (with_args (set_fstype_regex reg a) st)
  else if Ascii.eqb opt "F" then
    reg <- get_regex optarg ;;
    ret (with_args (set_skip_fstype_regex reg a) st)
  else if Ascii.eqb opt "n" then
    reg <- get_regex optarg ;; ret (with_args (set_node_regex reg a) st)
  else if Ascii.eqb opt "N" then
    reg <- get_regex optarg ;;
    ret (with_args (set_skip_node_regex reg a) st)
  else if Ascii.eqb opt "o" then
    reg <- get_regex optarg ;; ret (with_args (set_options_regex reg a) st)
  else if Ascii.eqb opt "O" then
    reg <- get_regex optarg ;;
    ret (with_args (set_skip_options_regex reg a) st)
  else if Ascii.eqb opt "p" then
    reg <- get_regex optarg ;;
    ret (mklocals a (Some reg) (l_skip_point_regex st))
  else if Ascii.eqb opt "P" then
    reg <- get_regex optarg ;;
    ret (mklocals a (l_point_regex st) (Some reg))
  else if Ascii.eqb opt "i" then
    ret (with_args (set_mount_type mount_options a) st)
  else if Ascii.eqb opt "s" then
    ret (with_args (set_mount_type mount_fstype a) st)
  else if Ascii.eqb opt "t" then
    ret (with_args (set_mount_type mount_from a) st)
  else
    match case_RC_COMMON_GETOPT opt with
    | Some status => exit status
    | None => ret st
    end.

(** [while ((opt = getopt_long (...)) != -1) switch (opt) { ... }]:
    [opts] is the sequence of options, each with its [optarg], that
    [getopt_long] finds in [argv]. *)
Fixpoint mountinfo_getopt (opts : list (ascii * string)) (st : locals)
  : M locals :=
  match opts with
  | [] => ret st
  | (opt, optarg) :: opts' =>
      st' <- mountinfo_switch opt optarg st ;;
      mountinfo_getopt opts' st'
  end.

(** [while (optind < argc) { ... }]: [operands] is
    [argv[optind .. argc - 1]]. *)
Fixpoint mountinfo_operands (operands : list string) (st : locals)
  : M locals :=
  match operands with
  | [] => ret st
  | arg :: operands' =>
      if negb (absolute arg) then eerrorx
      else
        mountinfo_operands operands'
          (with_args
             (set_mounts (rc_strlist_add (mounts (l_args st)) arg)
                (l_args st))
             st)
  end.

(** [mountinfo (argc, argv)] as a whole: the two option loops, then the
    pipeline. *)
Definition mountinfo_main (opts : list (ascii * string))
  (operands : list string) (o : os) (quiet : bool) : outcome unit :=
  match (st <- mountinfo_getopt opts locals_init ;;
         mountinfo_operands operands st)
          (initial_mem (l_args locals_init)) with
  | Ret st _ =>
      mountinfo o (l_args st) (l_point_regex st) (l_skip_point_regex st)
        quiet
  | Exit status m => Exit status m
  | Fault => Fault
  | OutOfFuel => OutOfFuel
  end.

End Options.

(** *** What the option loop leaves in the locals *)

(** The argument of the last occurrence of an option. *)
Fixpoint last_optarg (c : ascii) (opts : list (ascii * string))
  : option string :=
  match opts with
  | [] => None
  | (opt, optarg) :: opts' =>
      match last_optarg c opts' with
      | Some arg => Some arg
      | None => if Ascii.eqb opt c then Some optarg else None
      end
  end.

(** The last option of a sequence that is one of [cs]. *)
Fixpoint last_of (cs : list ascii) (opts : list (ascii * string))
  : option ascii :=
  match opts with
  | [] => None
  | (opt, _) :: opts' =>
      match last_of cs opts' with
      | Some c => Some c
      | None => if existsb (Ascii.eqb opt) cs then Some opt else None
      end
  end.

Definition regex_options : list ascii :=
  ["f"; "F"; "n"; "N"; "o"; "O"; "p"; "P"]%char.

Definition select_options : list ascii := ["i"; "s"; "t"]%char.

Definition regex_option (c : ascii) : bool :=
  existsb (Ascii.eqb c) regex_options.

Definition applet_option (c : ascii) : bool :=
  existsb (Ascii.eqb c) (regex_options ++ select_options).

(** The field an option of [select_options] selects. *)
Definition selected_by (c : ascii) : mount_type :=
  if Ascii.eqb c "i" then mount_options
  else if Ascii.eqb c "s" then mount_fstype
  else mount_from.

(** A sample [regcomp], for the closed examples only: a pattern [^s]
    matches the strings that start with [s], the pattern [(] does not
    compile, any other pattern matches itself. *)
Definition sample_regcomp (pattern : string) : option regex_t :=
  match pattern with
  | String "^" s => Some (String.prefix s)
  | String "(" EmptyString => None
  | _ => Some (String.eqb pattern)
  end.

(** A sample of the common options, for the closed examples only:
    every option leaves through the usage text. *)
Definition sample_common_getopt (opt : ascii) : option Z :=
  Some EXIT_FAILURE.

(** What the last occurrence of a regex option compiles to, [cur] when
    the option does not occur. *)
Definition compiled_last (regcomp : string -> option regex_t) (c : ascii)
  (opts : list (ascii * string)) (cur : option regex_t) : option regex_t :=
  match last_optarg c opts with
  | Some arg => regcomp arg
  | None => cur
  end.

(** The field the last of [-i], [-s], [-t] selects, [cur] when none
    occurs. *)
Definition selected_last (opts : list (ascii * string)) (cur : mount_type)
  : mount_type :=
  match last_of select_options opts with
  | Some c => selected_by c
  | None => cur
  end.

(** Options of the applet's own whose patterns all compile. *)
Definition good_options (regcomp : string -> option regex_t)
  (opts : list (ascii * string)) : Prop :=
  Forall
    (fun oa =>
       let '(opt, optarg) := oa in
       applet_option opt = true
       /\ (regex_option opt = true -> regcomp optarg <> None))
    opts.

(** The lines of [scenario_table]. *)
Definition scenario_lines : list proc_line :=
  [ mkline "/dev/sda1" "/" "ext4" "rw,relatime" "0 0";
    mkline "tmpfs" "/run" "tmpfs" "rw,nosuid" "0 0" ].

(** Two mount entries: a local read-only one, and one with no visible
    flag. *)
Definition sample_entries : list statfs :=
  [ mkstatfs 0x1001 "/dev/ad0s1a" "/" "ufs";
    mkstatfs 0 "procfs" "/proc" "procfs" ].

(** A configuration whose node regex is [^/dev]. *)
Definition dev_nodes : args :=
  mkargs (Some (String.prefix "/dev")) None None None None None []
    mount_to.

(** A command line: [-f '^xfs' -s -f '^ext']. *)
Definition sample_opts : list (ascii * string) :=
  [ ("f"%char, "^xfs"); ("s"%char, EmptyString); ("f"%char, "^ext") ].

(** ** The records of a mount table *)

(** The buffers the loop of the table-file realization reads, one for
    each [fgets] that succeeds. *)
Fixpoint table_buffers (fuel : nat) (fp : string) : list string :=
  match fgets buffer_size fp with
  | None => []
  | Some (buffer, fp') =>
      match fuel with
      | O => []
      | S fuel' => buffer :: table_buffers fuel' fp'
      end
  end.

(** The records a realization hands to [process_mount], in order. *)
Definition records_of {hdr : sys_mount_h} (o : os) : list record :=
  match o with
  | linux None => []
  | linux (Some fp) => map split_fields (table_buffers (String.length fp) fp)
  | bsd mnts => map statfs_record mnts
  end.

(** Whether [__linux__] is defined. *)
Definition os_linux (o : os) : bool :=
  match o with
  | linux _ => true
  | bsd _ => false
  end.

(** ** process_mount over pointers

    The embedding above takes a C string for its value.  To say what a
    call keeps of the record it is given, this second embedding of
    [process_mount] keeps the strings in a heap of blocks and hands
    pointers around, as the source does: the fields of the record are
    pointers, and so are the entries of the list. *)

(** The address of a block: its index in the heap. *)
Definition addr : Type := nat.

(** [char *] as a pointer: [None] is [NULL]. *)
Definition ptr : Type := option addr.

Record pmem : Type := mkpmem {
  p_errno : Z;
  p_args : args;
  p_heap : list string;
  p_list : list addr;
  p_stdout : string
}.

Inductive presult (A : Type) : Type :=
| PRet (a : A) (pm : pmem)
| PFault.

Arguments PRet {A} a pm.
Arguments PFault {A}.

Definition PM (A : Type) : Type := pmem -> presult A.

Definition pret {A : Type} (a : A) : PM A := fun pm => PRet a pm.

Definition pbind {A B : Type} (c : PM A) (k : A -> PM B) : PM B :=
  fun pm =>
    match c pm with
    | PRet a pm' => k a pm'
    | PFault => PFault
    end.

Notation "x <~ c ;; k" := (pbind c (fun x => k))
  (at level 61, c at next level, right associativity).
Notation "c ;;~ k" := (pbind c (fun _ => k))
  (at level 61, right associativity).

(** The string a pointer points to; nothing for [NULL] and for a
    pointer to no block. *)
Definition deref (h : list string) (p : ptr) : char_p :=
  match p with
  | Some q => nth_error h q
  | None => None
  end.

(** Reading through a pointer; [NULL] and dangling pointers fault. *)
Definition load (p : ptr) : PM string :=
  fun pm =>
    match deref (p_heap pm) p with
    | Some s => PRet s pm
    | None => PFault
    end.

Definition pset_errno (e : Z) : PM unit :=
  fun pm =>
    PRet tt (mkpmem e (p_args pm) (p_heap pm) (p_list pm) (p_stdout pm)).

Definition pget_args : PM args := fun pm => PRet (p_args pm) pm.

(** [strcmp (s, lit)] and [strcmp (lit, s)] for a string [lit] that is
    not in the heap of this model: a literal, or an entry of
    [args->mounts]. *)
Definition strcmp_ptr_lit (s : ptr) (lit : string) : PM Z :=
  a <~ load s ;; pret (strcmp a lit).

Definition strcmp_lit_ptr (lit : string) (s : ptr) : PM Z :=
  b <~ load s ;; pret (strcmp lit b).

Definition regexec_ptr (preg : regex_t) (s : ptr) : PM Z :=
  str <~ load s ;; pret (if preg str then 0 else REG_NOMATCH).

(** The string of an entry of the list. *)
Definition str_at (h : list string) (q : addr) : string :=
  nth q h EmptyString.

(** Modelled from the spec: [rc_strlist_addsortc] ([strlist.c] is not
    under src/), at the level of pointers.  The set owns its strings,
    the records are "consumed immediately after production (no
    retention, no ownership transfer beyond the current predicate
    evaluation)": the item is copied to a new block, and the pointer to
    that block is inserted "at the position that keeps the set's
    internal order ascending", "skipping insertion (no-op) if value
    already present". *)
Fixpoint insert_sorted_ptr (h : list string) (item : string) (q : addr)
  (l : list addr) : list addr :=
  match l with
  | [] => [q]
  | x :: l' =>
      if strcmp (str_at h x) item <? 0
      then x :: insert_sorted_ptr h item q l'
      else q :: x :: l'
  end.

Definition rc_strlist_addsortc_ptr (p : ptr) : PM unit :=
  item <~ load p ;;
  fun pm =>
    if existsb (fun x => String.eqb item (str_at (p_heap pm) x)) (p_list pm)
    then PRet tt pm
    else
      PRet tt
        (mkpmem (p_errno pm) (p_args pm)
           (p_heap pm ++ [item])%list
           (insert_sorted_ptr (p_heap pm) item (length (p_heap pm))
              (p_list pm))
           (p_stdout pm)).

Definition regex_nomatch_ptr (re : option regex_t) (s : ptr) : PM bool :=
  match re with
  | None => pret false
  | Some preg => c <~ regexec_ptr preg s ;; pret (negb (c =? 0))
  end.

Definition regex_match_ptr (re : option regex_t) (s : ptr) : PM bool :=
  match re with
  | None => pret false
  | Some preg => c <~ regexec_ptr preg s ;; pret (c =? 0)
  end.

Fixpoint mounts_found_ptr (l : strlist) (to : ptr) : PM bool :=
  match l with
  | [] => pret false
  | mnt :: l' =>
      c <~ strcmp_lit_ptr mnt to ;;
      if c =? 0 then pret true else mounts_found_ptr l' to
  end.

Definition mounts_reject_ptr (l : strlist) (to : ptr) : PM bool :=
  match l with
  | [] => pret false
  | _ :: _ => found <~ mounts_found_ptr l to ;; pret (negb found)
  end.

Definition select_field_ptr (t : mount_type) (from to fstype options : ptr)
  : ptr :=
  match t with
  | mount_from => from
  | mount_to => to
  | mount_fstype => fstype
  | mount_options => options
  end.

(** [process_mount (list, args, from, to, fstype, options)], statement
    by statement as [process_mount] above, over pointers. *)
Definition process_mount_ptr (linux : bool) (from to fstype options : ptr)
  : PM Z :=
  pset_errno ENOENT ;;~
  a <~ pget_args ;;
  rootfs <~ (if linux
             then c <~ strcmp_ptr_lit fstype "rootfs" ;; pret (c =? 0)
             else pret false) ;;
  if rootfs then pret (-1) else
  b <~ regex_nomatch_ptr (node_regex a) from ;;
  if b then pret 1 else
  b <~ regex_match_ptr (skip_node_regex a) from ;;
  if b then pret 1 else
  b <~ regex_nomatch_ptr (fstype_regex a) fstype ;;
  if b then pret (-1) else
  b <~ regex_match_ptr (skip_fstype_regex a) fstype ;;
  if b then pret (-1) else
  b <~ regex_nomatch_ptr (options_regex a) options ;;
  if b then pret (-1) else
  b <~ regex_match_ptr (skip_options_regex a) options ;;
  if b then pret (-1) else
  b <~ mounts_reject_ptr (mounts a) to ;;
  if b then pret (-1) else
  match select_field_ptr (args_mount_type a) from to fstype options with
  | Some p =>
      pset_errno 0 ;;~
      rc_strlist_addsortc_ptr (Some p) ;;~
      pret 0
  | None => pret (-1)
  end.

(** The memory of the value embedding that a memory of blocks stands
    for. *)
Definition values_of (pm : pmem) : mem :=
  mkmem (p_errno pm) (p_args pm)
    (map (str_at (p_heap pm)) (p_list pm)) (p_stdout pm).

(** A pointer is [NULL] or points to a block. *)
Definition valid (h : list string) (p : ptr) : Prop :=
  match p with
  | Some q => (q < length h)%nat
  | None => True
  end.

(** Every entry of the list points to a block. *)
Definition list_valid (pm : pmem) : Prop :=
  Forall (fun q => (q < length (p_heap pm))%nat) (p_list pm).

(** What a later writer leaves in the block at [q]: the heap with that
    block overwritten. *)
Fixpoint overwrite (h : list string) (q : addr) (s : string) : list string :=
  match h, q with
  | [], _ => []
  | _ :: h', O => s :: h'
  | x :: h', S q' => x :: overwrite h' q' s
  end.

(** The blocks of a record overwritten, as the next [fgets] overwrites
    the buffer the fields point into. *)
Definition overwrite_ptr (h : list string) (p : ptr) (s : string)
  : list string :=
  match p with
  | Some q => overwrite h q s
  | None => h
  end.

Definition overwrite_record (h : list string) (from to fstype options : ptr)
  (s : string) : list string :=
  overwrite_ptr
    (overwrite_ptr (overwrite_ptr (overwrite_ptr h from s) to s) fstype s)
    options s.

(** No entry of a list is the pointer [p]. *)
Definition not_held (l : list addr) (p : ptr) : Prop :=
  match p with
  | Some q => ~ In q l
  | None => True
  end.

Definition pwith_errno (e : Z) (pm : pmem) : pmem :=
  mkpmem e (p_args pm) (p_heap pm) (p_list pm) (p_stdout pm).

(** The predicate set of the specification over pointers: the checks
    read the strings the fields point to. *)
Definition predicate_set_ptr (on_linux : bool)
  (from to fstype options : ptr) : PM Z :=
  fun pm =>
    let h := p_heap pm in
    match first_verdict
            (predicate_checks on_linux (p_args pm) (deref h from)
               (deref h to) (deref h fstype) (deref h options)) with
    | Undefined => PFault
    | Reject code => PRet code (pwith_errno ENOENT pm)
    | Pass =>
        match select_field_ptr (args_mount_type (p_args pm)) from to fstype
                options with
        | Some p =>
            (rc_strlist_addsortc_ptr (Some p) ;;~ pret 0)
              (pwith_errno 0 pm)
        | None => PRet (-1) (pwith_errno ENOENT pm)
        end
    end.

(** A memory of blocks holding one record, with an empty list. *)
Definition record_pmem : pmem :=
  mkpmem 0 (no_filters mount_to) ["/dev/sda1"; "/"; "ext4"; "rw"] []
    EmptyString.

(** * Properties *)

(** ** The order of [strcmp] *)

Lemma string_compare_refl (s : string) : String.compare s s = Eq.
Proof.
  induction s as [|c s IH]; simpl; [reflexivity|].
  unfold Ascii.compare. now rewrite N.compare_refl.
Qed.

Lemma string_compare_lt_trans (a b c : string) :
  String.compare a b = Lt -> String.compare b c = Lt ->
  String.compare a c = Lt.
Proof.
  revert b c.
  induction a as [|x a IH]; intros [|y b] [|z c]; simpl;
    try discriminate; try reflexivity.
  destruct (Ascii.compare x y) eqn:E1;
    destruct (Ascii.compare y z) eqn:E2; try discriminate; intros H1 H2.
  - apply Ascii.compare_eq_iff in E1, E2. subst.
    unfold Ascii.compare. rewrite N.compare_refl. eauto.
  - apply Ascii.compare_eq_iff in E1. subst. now rewrite E2.
  - apply Ascii.compare_eq_iff in E2. subst. now rewrite E1.
  - unfold Ascii.compare in *.
    rewrite N.compare_lt_iff in E1, E2.
    assert (E : (N_of_ascii x ?= N_of_ascii z)%N = Lt)
      by (apply N.compare_lt_iff; lia).
    now rewrite E.
Qed.

Lemma strcmp_eq (a b : string) : strcmp a b = 0 <-> a = b.
Proof.
  unfold strcmp. split.
  - destruct (String.compare a b) eqn:E; try discriminate.
    intros _. now apply String.compare_eq_iff.
  - intros ->. now rewrite string_compare_refl.
Qed.

Lemma strcmp_eqb (a b : string) : (strcmp a b =? 0) = String.eqb b a.
Proof.
  destruct (String.eqb_spec b a) as [->|Hne].
  - apply Z.eqb_eq, strcmp_eq. reflexivity.
  - apply Z.eqb_neq. intros H. apply strcmp_eq in H. congruence.
Qed.

Lemma str_lt_trans (a b c : string) : str_lt a b -> str_lt b c -> str_lt a c.
Proof.
  unfold str_lt, strcmp.
  destruct (String.compare a b) eqn:E1; try lia.
  destruct (String.compare b c) eqn:E2; try lia.
  intros _ _. now rewrite (string_compare_lt_trans a b c E1 E2).
Qed.

Lemma str_lt_irrefl (a : string) : ~ str_lt a a.
Proof.
  unfold str_lt, strcmp. rewrite string_compare_refl. lia.
Qed.

Lemma str_lt_total (a b : string) : str_lt a b \/ a = b \/ str_lt b a.
Proof.
  unfold str_lt, strcmp. rewrite (String.compare_antisym b a).
  destruct (String.compare a b) eqn:E; simpl.
  - right. left. now apply String.compare_eq_iff.
  - left. lia.
  - right. right. lia.
Qed.

(** ** The accumulator keeps a strictly ascending list *)

Lemma insert_sorted_In (item y : string) (l : strlist) :
  In y (insert_sorted item l) <-> y = item \/ In y l.
Proof.
  induction l as [|x l IH]; simpl.
  - intuition congruence.
  - destruct (strcmp x item <? 0); simpl; rewrite ?IH; intuition congruence.
Qed.

Lemma insert_sorted_ascending (item : string) (l : strlist) :
  ascending l -> ~ In item l -> ascending (insert_sorted item l).
Proof.
  unfold ascending.
  induction l as [|x l IH]; simpl; intros Hs Hn.
  - repeat constructor.
  - apply StronglySorted_inv in Hs. destruct Hs as [Hs Hx].
    destruct (strcmp x item <? 0) eqn:E.
    + apply Z.ltb_lt in E. constructor.
      * apply IH; tauto.
      * rewrite Forall_forall in *. intros y Hy.
        apply insert_sorted_In in Hy. destruct Hy as [->|Hy]; auto.
    + apply Z.ltb_ge in E.
      assert (Hlt : str_lt item x).
      { destruct (str_lt_total item x) as [H|[H|H]]; auto.
        - subst. tauto.
        - unfold str_lt in H. lia. }
      constructor.
      * constructor; assumption.
      * constructor; [assumption|].
        rewrite Forall_forall in *. intros y Hy.
        eapply str_lt_trans; eauto.
Qed.

Lemma existsb_eqb_In (item : string) (l : strlist) :
  existsb (String.eqb item) l = true <-> In item l.
Proof.
  rewrite existsb_exists. split.
  - intros [x [Hx E]]. apply String.eqb_eq in E. now subst.
  - intros H. exists item. split; [assumption|apply String.eqb_refl].
Qed.

Lemma rc_strlist_addsortc_In (l : strlist) (item y : string) :
  In y (rc_strlist_addsortc l item) <-> y = item \/ In y l.
Proof.
  unfold rc_strlist_addsortc.
  destruct (existsb (String.eqb item) l) eqn:E.
  - apply existsb_eqb_In in E. intuition congruence.
  - apply insert_sorted_In.
Qed.

Lemma rc_strlist_addsortc_ascending (l : strlist) (item : string) :
  ascending l -> ascending (rc_strlist_addsortc l item).
Proof.
  intros Hs. unfold rc_strlist_addsortc.
  destruct (existsb (String.eqb item) l) eqn:E; [assumption|].
  apply insert_sorted_ascending; [assumption|].
  intros Hin. apply existsb_eqb_In in Hin. congruence.
Qed.

Lemma ascending_NoDup (l : strlist) : ascending l -> NoDup l.
Proof.
  unfold ascending.
  induction 1 as [|x l Hs IH Hx]; constructor; [|assumption].
  intros Hin. rewrite Forall_forall in Hx.
  exact (str_lt_irrefl x (Hx x Hin)).
Qed.

Lemma StronglySorted_snoc {A : Type} (R : A -> A -> Prop) (l : list A)
  (x : A) :
  StronglySorted R l -> Forall (fun y => R y x) l ->
  StronglySorted R (l ++ [x])%list.
Proof.
  induction 1 as [|y l Hs IH Hy]; simpl; intros Hall.
  - repeat constructor.
  - inversion Hall; subst. constructor; [auto|].
    apply Forall_app. split; [assumption|]. repeat constructor. assumption.
Qed.

Lemma ascending_rev (l : strlist) : ascending l -> descending (rev l).
Proof.
  unfold ascending, descending.
  induction 1 as [|x l Hs IH Hx]; simpl; [constructor|].
  apply StronglySorted_snoc; [assumption|].
  apply Forall_rev. exact Hx.
Qed.

Lemma StronglySorted_filter {A : Type} (R : A -> A -> Prop)
  (f : A -> bool) (l : list A) :
  StronglySorted R l -> StronglySorted R (filter f l).
Proof.
  induction 1 as [|x l Hs IH Hx]; simpl; [constructor|].
  destruct (f x); [|assumption].
  constructor; [assumption|].
  rewrite Forall_forall in *. intros y Hy.
  apply filter_In in Hy. apply Hx, Hy.
Qed.

(** ** [process_mount] is the predicate set of the specification *)

Lemma regex_nomatch_verdict (re : option regex_t) (s : char_p) (code : Z)
  (m : mem) :
  regex_nomatch re s m =
  match include_check re s code with
  | Pass => Ret false m
  | Reject _ => Ret true m
  | Undefined => Fault
  end.
Proof.
  destruct re as [preg|], s as [str|]; try reflexivity.
  unfold regex_nomatch, include_check, regexec, bind, ret.
  destruct (preg str); reflexivity.
Qed.

Lemma regex_match_verdict (re : option regex_t) (s : char_p) (code : Z)
  (m : mem) :
  regex_match re s m =
  match exclude_check re s code with
  | Pass => Ret false m
  | Reject _ => Ret true m
  | Undefined => Fault
  end.
Proof.
  destruct re as [preg|], s as [str|]; try reflexivity.
  unfold regex_match, exclude_check, regexec, bind, ret.
  destruct (preg str); reflexivity.
Qed.

Lemma mounts_found_eq (l : strlist) (to : string) (m : mem) :
  mounts_found l (Some to) m = Ret (existsb (String.eqb to) l) m.
Proof.
  induction l as [|mnt l IH]; simpl; [reflexivity|].
  unfold bind, strcmp_p, ret. rewrite strcmp_eqb.
  destruct (String.eqb to mnt); simpl; [reflexivity|apply IH].
Qed.

Lemma mounts_reject_verdict (l : strlist) (to : char_p) (m : mem) :
  mounts_reject l to m =
  match targets_check l to with
  | Pass => Ret false m
  | Reject _ => Ret true m
  | Undefined => Fault
  end.
Proof.
  destruct l as [|mnt l]; [reflexivity|].
  destruct to as [t|]; [|reflexivity].
  unfold mounts_reject, targets_check, bind. rewrite mounts_found_eq.
  destruct (existsb (String.eqb t) (mnt :: l)); reflexivity.
Qed.

Lemma rootfs_verdict (on_linux : bool) (fstype : char_p) (m : mem) :
  (if on_linux
   then c <- strcmp_p fstype (Some "rootfs") ;; ret (c =? 0)
   else ret false) m =
  match platform_artifact on_linux fstype with
  | Pass => Ret false m
  | Reject _ => Ret true m
  | Undefined => Fault
  end.
Proof.
  destruct on_linux; [|reflexivity].
  destruct fstype as [f|]; [|reflexivity].
  unfold platform_artifact, bind, strcmp_p, ret. rewrite strcmp_eqb.
  rewrite String.eqb_sym.
  destruct (String.eqb f "rootfs"); reflexivity.
Qed.



Lemma platform_artifact_code (on_linux : bool) (fstype : char_p) (c : Z) :
  platform_artifact on_linux fstype = Reject c -> c = -1.
Proof.
  unfold platform_artifact.
  destruct on_linux, fstype as [f|]; try discriminate.
  destruct (String.eqb f "rootfs"); congruence.
Qed.

Lemma include_check_code (re : option regex_t) (s : char_p) (code c : Z) :
  include_check re s code = Reject c -> c = code.
Proof.
  destruct re as [preg|], s as [str|]; simpl; try discriminate.
  destruct (preg str); congruence.
Qed.

Lemma exclude_check_code (re : option regex_t) (s : char_p) (code c : Z) :
  exclude_check re s code = Reject c -> c = code.
Proof.
  destruct re as [preg|], s as [str|]; simpl; try discriminate.
  destruct (preg str); congruence.
Qed.

Lemma targets_check_code (l : strlist) (to : char_p) (c : Z) :
  targets_check l to = Reject c -> c = -1.
Proof.
  destruct l as [|mnt l], to as [t|]; simpl; try discriminate.
  destruct (String.eqb t mnt || existsb (String.eqb t) l); congruence.
Qed.

Ltac verdict_step lem code_lem :=
  unfold bind at 1; rewrite lem;
  match goal with
  | |- context [match ?v with Pass => Ret false _ | _ => _ end] =>
      let E := fresh "E" in
      destruct v eqn:E;
      [ clear E
      | apply code_lem in E; subst; reflexivity
      | reflexivity ]
  end.

Lemma process_mount_eq (on_linux : bool) (from to fstype options : char_p)
  (m : mem) :
  process_mount on_linux from to fstype options m =
  predicate_set on_linux from to fstype options m.
Proof.
  unfold process_mount, predicate_set, predicate_checks.
  unfold bind at 1. unfold set_errno at 1.
  unfold bind at 1. unfold get_args at 1.
  cbn [m_args m_list m_stdout m_errno first_verdict].
  verdict_step rootfs_verdict platform_artifact_code.
  verdict_step (regex_nomatch_verdict (node_regex (m_args m)) from 1)
    include_check_code.
  verdict_step (regex_match_verdict (skip_node_regex (m_args m)) from 1)
    exclude_check_code.
  verdict_step (regex_nomatch_verdict (fstype_regex (m_args m)) fstype (-1))
    include_check_code.
  verdict_step (regex_match_verdict (skip_fstype_regex (m_args m)) fstype (-1))
    exclude_check_code.
  verdict_step (regex_nomatch_verdict (options_regex (m_args m)) options (-1))
    include_check_code.
  verdict_step
    (regex_match_verdict (skip_options_regex (m_args m)) options (-1))
    exclude_check_code.
  verdict_step mounts_reject_verdict targets_check_code.
  destruct (select_field (args_mount_type (m_args m)) from to fstype options);
    reflexivity.
Qed.

(** ** What [process_mount] changes *)

Lemma first_verdict_Reject_In (checks : list verdict) (c : Z) :
  first_verdict checks = Reject c -> In (Reject c) checks.
Proof.
  induction checks as [|v checks IH]; simpl; [discriminate|].
  destruct v; intros H; auto; discriminate.
Qed.

Lemma process_mount_outcome (on_linux : bool)
  (from to fstype options : char_p) (m : mem) :
  process_mount on_linux from to fstype options m = Fault \/
  exists r m', process_mount on_linux from to fstype options m = Ret r m'.
Proof.
  rewrite process_mount_eq. unfold predicate_set.
  destruct (first_verdict _); eauto.
  destruct (select_field _ _ _ _ _); eauto.
Qed.

Lemma process_mount_frame (on_linux : bool)
  (from to fstype options : char_p) (m m' : mem) (r : Z) :
  process_mount on_linux from to fstype options m = Ret r m' ->
  m_args m' = m_args m /\
  m_stdout m' = m_stdout m /\
  ((r <> 0 /\ m_list m' = m_list m /\ m_errno m' = ENOENT) \/
   (r = 0 /\ m_errno m' = 0 /\
    exists p,
      select_field (args_mount_type (m_args m)) from to fstype options
      = Some p /\
      m_list m' = rc_strlist_addsortc (m_list m) p)).
Proof.
  rewrite process_mount_eq. unfold predicate_set.
  destruct (first_verdict _) eqn:E.
  - destruct (select_field _ _ _ _ _) eqn:Es; intros H; inversion H; subst;
      simpl; (split; [reflexivity|split; [reflexivity|]]).
    + right. eauto.
    + left. repeat split; auto. discriminate.
  - intros H; inversion H; subst; simpl. repeat split.
    left. repeat split; auto.
    apply first_verdict_Reject_In in E.
    unfold predicate_checks in E. simpl in E.
    assert (Hc : r = 1 \/ r = -1).
    { repeat (destruct E as [E|E];
              [ first [ apply platform_artifact_code in E
                      | apply include_check_code in E
                      | apply exclude_check_code in E
                      | apply targets_check_code in E ]; lia | ]).
      contradiction. }
    lia.
  - discriminate.
Qed.

Lemma process_mount_preserved (on_linux : bool)
  (from to fstype options : char_p) (m m' : mem) (r : Z) :
  process_mount on_linux from to fstype options m = Ret r m' ->
  preserved m m'.
Proof.
  intros H. apply process_mount_frame in H.
  destruct H as (Ha & Ho & [(_ & Hl & _)|(_ & _ & p & _ & Hl)]);
    (split; [assumption|split; [assumption|]]); rewrite Hl.
  - split; [apply incl_refl|trivial].
  - split; [|apply rc_strlist_addsortc_ascending].
    intros y Hy. apply rc_strlist_addsortc_In. now right.
Qed.

Lemma preserved_refl (m : mem) : preserved m m.
Proof. repeat split; auto using incl_refl. Qed.

Lemma preserved_trans (m1 m2 m3 : mem) :
  preserved m1 m2 -> preserved m2 m3 -> preserved m1 m3.
Proof.
  intros (Ha & Ho & Hi & Hl) (Ha' & Ho' & Hi' & Hl').
  repeat split; try congruence; eauto using incl_tran.
Qed.

(** An accepted record leaves its selected value in the list, and
    leaves the list as it is when the value is there already. *)
Lemma process_mount_accumulates_once (on_linux : bool)
  (from to fstype options : char_p) (m m' : mem) :
  process_mount on_linux from to fstype options m = Ret 0 m' ->
  exists p,
    select_field (args_mount_type (m_args m)) from to fstype options
    = Some p
    /\ In p (m_list m')
    /\ (In p (m_list m) -> m_list m' = m_list m).
Proof.
  intros H. apply process_mount_frame in H.
  destruct H as (_ & _ & [(Hr & _)|(_ & _ & p & Hp & Hl)]); [congruence|].
  exists p. split; [exact Hp|]. rewrite Hl. split.
  - apply rc_strlist_addsortc_In. now left.
  - intros Hin. unfold rc_strlist_addsortc.
    apply existsb_eqb_In in Hin. now rewrite Hin.
Qed.

(** ** Strings and mount-table lines *)

Lemma string_app_assoc (a b c : string) : (a ++ b) ++ c = a ++ (b ++ c).
Proof. induction a as [|x a IH]; simpl; congruence. Qed.

Lemma string_app_nil_r (a : string) : a ++ "" = a.
Proof. induction a as [|x a IH]; simpl; congruence. Qed.

Lemma string_length_app (a b : string) :
  String.length (a ++ b) = (String.length a + String.length b)%nat.
Proof. induction a as [|x a IH]; simpl; congruence. Qed.

Lemma all_chars_app (P : ascii -> bool) (a b : string) :
  all_chars P (a ++ b) = all_chars P a && all_chars P b.
Proof.
  induction a as [|x a IH]; simpl; [reflexivity|].
  now rewrite IH, andb_assoc.
Qed.

Lemma all_chars_weaken (P Q : ascii -> bool) (s : string) :
  (forall c, P c = true -> Q c = true) ->
  all_chars P s = true -> all_chars Q s = true.
Proof.
  intros HPQ. induction s as [|x s IH]; simpl; [reflexivity|].
  rewrite !andb_true_iff. intros [Hx Hs]. auto.
Qed.

Lemma is_field_line_text (f : string) : is_field f = true -> line_text f = true.
Proof.
  apply all_chars_weaken. intros c H.
  apply andb_true_iff in H. tauto.
Qed.

Lemma is_field_not_space (f : string) :
  is_field f = true -> all_chars not_space f = true.
Proof.
  apply all_chars_weaken. intros c H.
  apply andb_true_iff in H. tauto.
Qed.

Lemma line_text_not_nl (s : string) :
  line_text s = true -> all_chars not_nl s = true.
Proof.
  apply all_chars_weaken. intros c H.
  apply andb_true_iff in H. tauto.
Qed.

Lemma line_text_not_nul (s : string) :
  line_text s = true -> all_chars not_nul s = true.
Proof.
  apply all_chars_weaken. intros c H.
  apply andb_true_iff in H. tauto.
Qed.

Lemma line_text_space (a b : string) :
  line_text a = true -> line_text b = true ->
  line_text (a ++ " " ++ b) = true.
Proof.
  intros Ha Hb. unfold line_text in *.
  rewrite all_chars_app, Ha. simpl. exact Hb.
Qed.

Lemma fgets_read_line (text rest : string) (n : N) :
  all_chars not_nl text = true ->
  (N.of_nat (String.length text) < n)%N ->
  fgets_read n (text ++ nl ++ rest) = (text ++ nl, rest).
Proof.
  revert n. induction text as [|c text IH]; intros n Hc Hn.
  - simpl. destruct (N.eqb_spec n 0) as [->|_]; [lia|reflexivity].
  - simpl in Hc. apply andb_true_iff in Hc. destruct Hc as [Hc Ht].
    cbn [append fgets_read].
    destruct (N.eqb_spec n 0) as [->|_]; [lia|].
    unfold not_nl in Hc. apply negb_true_iff in Hc. rewrite Hc.
    rewrite IH; [reflexivity|assumption|].
    simpl String.length in Hn. lia.
Qed.

(** [fgets] hands a whole line to the loop, with its newline. *)
Lemma fgets_line (text rest : string) :
  line_text text = true -> fits_buffer text ->
  fgets buffer_size (text ++ nl ++ rest) = Some (text ++ nl, rest).
Proof.
  intros Ht Hf. unfold fgets.
  rewrite fgets_read_line; [|now apply line_text_not_nl|exact Hf].
  destruct text; reflexivity.
Qed.

Lemma c_str_id (s : string) : all_chars not_nul s = true -> c_str s = s.
Proof.
  induction s as [|c s IH]; simpl; [reflexivity|].
  intros H. apply andb_true_iff in H. destruct H as [Hc Hs].
  unfold not_nul in Hc. apply negb_true_iff in Hc. rewrite Hc.
  now rewrite IH.
Qed.

Lemma c_str_line (text : string) :
  line_text text = true -> c_str (text ++ nl) = text ++ nl.
Proof.
  intros Ht. apply c_str_id. rewrite all_chars_app.
  rewrite (line_text_not_nul _ Ht). reflexivity.
Qed.

Lemma strsep_field (f r : string) :
  all_chars not_space f = true ->
  strsep (Some (f ++ " " ++ r)) " " = (Some f, Some r).
Proof.
  intros Hf. unfold strsep.
  enough (E : strsep_scan " " (f ++ " " ++ r) = (f, Some r))
    by now rewrite E.
  induction f as [|c f IH]; [reflexivity|].
  simpl in Hf. apply andb_true_iff in Hf. destruct Hf as [Hc Hf].
  cbn [append strsep_scan is_delim] in *.
  unfold not_space in Hc. apply negb_true_iff in Hc. rewrite Hc.
  cbn [orb]. now rewrite IH.
Qed.

Lemma strsep_last (f : string) :
  all_chars not_space f = true ->
  strsep (Some f) " " = (Some f, None).
Proof.
  intros Hf. unfold strsep.
  enough (E : strsep_scan " " f = (f, None)) by now rewrite E.
  induction f as [|c f IH]; [reflexivity|].
  simpl in Hf. apply andb_true_iff in Hf. destruct Hf as [Hc Hf].
  cbn [strsep_scan is_delim].
  unfold not_space in Hc. apply negb_true_iff in Hc. rewrite Hc.
  cbn [orb]. now rewrite IH.
Qed.

Lemma not_space_nl (f : string) :
  all_chars not_space f = true -> all_chars not_space (f ++ nl) = true.
Proof. intros H. now rewrite all_chars_app, H. Qed.

(** A line of three fields: [opts] is [NULL]. *)
Lemma split_fields_three (from to fst : string) :
  is_field from = true -> is_field to = true -> is_field fst = true ->
  split_fields (from ++ " " ++ to ++ " " ++ fst ++ nl)
  = (Some from, Some to, Some (fst ++ nl), None).
Proof.
  intros H1 H2 H3. unfold split_fields.
  replace (from ++ " " ++ to ++ " " ++ fst ++ nl)
    with ((from ++ " " ++ to ++ " " ++ fst) ++ nl)
    by now rewrite !string_app_assoc.
  rewrite c_str_line
    by auto 12 using line_text_space, is_field_line_text.
  rewrite !string_app_assoc.
  rewrite strsep_field by now apply is_field_not_space.
  rewrite strsep_field by now apply is_field_not_space.
  rewrite strsep_last
    by now apply not_space_nl, is_field_not_space.
  reflexivity.
Qed.

(** A line of exactly four fields: [opts] keeps the newline. *)
Lemma split_fields_four (from to fst opts : string) :
  is_field from = true -> is_field to = true -> is_field fst = true ->
  is_field opts = true ->
  split_fields (from ++ " " ++ to ++ " " ++ fst ++ " " ++ opts ++ nl)
  = (Some from, Some to, Some fst, Some (opts ++ nl)).
Proof.
  intros H1 H2 H3 H4. unfold split_fields.
  replace (from ++ " " ++ to ++ " " ++ fst ++ " " ++ opts ++ nl)
    with ((from ++ " " ++ to ++ " " ++ fst ++ " " ++ opts) ++ nl)
    by now rewrite !string_app_assoc.
  rewrite c_str_line
    by auto 12 using line_text_space, is_field_line_text.
  rewrite !string_app_assoc.
  do 3 (rewrite strsep_field by now apply is_field_not_space).
  rewrite strsep_last
    by now apply not_space_nl, is_field_not_space.
  reflexivity.
Qed.

(** A line of five fields or more: [opts] ends at the next space. *)
Lemma split_fields_more (from to fst opts extra : string) :
  is_field from = true -> is_field to = true -> is_field fst = true ->
  is_field opts = true -> line_text extra = true ->
  split_fields
    (from ++ " " ++ to ++ " " ++ fst ++ " " ++ opts ++ " " ++ extra ++ nl)
  = (Some from, Some to, Some fst, Some opts).
Proof.
  intros H1 H2 H3 H4 H5. unfold split_fields.
  replace
    (from ++ " " ++ to ++ " " ++ fst ++ " " ++ opts ++ " " ++ extra ++ nl)
    with ((from ++ " " ++ to ++ " " ++ fst ++ " " ++ opts ++ " " ++ extra)
            ++ nl)
    by now rewrite !string_app_assoc.
  rewrite c_str_line
    by auto 12 using line_text_space, is_field_line_text.
  rewrite !string_app_assoc.
  do 4 (rewrite strsep_field by now apply is_field_not_space).
  reflexivity.
Qed.

(** ** The record loops *)

Lemma fgets_read_length (n : N) (s : string) :
  (String.length (snd (fgets_read n s)) <= String.length s)%nat.
Proof.
  revert n. induction s as [|c s IH]; intros n; simpl; [lia|].
  destruct (n =? 0)%N; simpl; [lia|].
  destruct (Ascii.eqb c "010"); simpl; [lia|].
  specialize (IH (N.pred n)).
  destruct (fgets_read (N.pred n) s); simpl in *. lia.
Qed.

(** Every successful [fgets] consumes at least one byte. *)
Lemma fgets_progress (fp buffer fp' : string) :
  fgets buffer_size fp = Some (buffer, fp') ->
  (String.length fp' < String.length fp)%nat.
Proof.
  destruct fp as [|c s]; [discriminate|].
  unfold fgets. cbn [fgets_read].
  change ((buffer_size - 1 =? 0)%N) with false. cbv iota.
  destruct (Ascii.eqb c "010").
  - intros H. inversion H; subst. simpl. lia.
  - pose proof (fgets_read_length (N.pred (buffer_size - 1)) s) as Hl.
    destruct (fgets_read (N.pred (buffer_size - 1)) s) as [l r].
    intros H. inversion H; subst. simpl in *. lia.
Qed.

Lemma find_mounts_while_S (fuel : nat) (fp : string) (m : mem) :
  find_mounts_while (S fuel) fp m =
  match fgets buffer_size fp with
  | None => Ret tt m
  | Some (buffer, fp') =>
      let '(from, to, fst, opts) := split_fields buffer in
      (process_mount true from to fst opts ;;;
       find_mounts_while fuel fp') m
  end.
Proof.
  cbn [find_mounts_while].
  destruct (fgets buffer_size fp) as [[buffer fp']|]; [|reflexivity].
  destruct (split_fields buffer) as [[[from to] fst] opts]. reflexivity.
Qed.

(** The fuel [find_mounts] gives its loop is never used up. *)
Lemma find_mounts_while_fuel (fuel : nat) (fp : string) (m : mem) :
  (String.length fp <= fuel)%nat ->
  find_mounts_while fuel fp m <> OutOfFuel.
Proof.
  revert fp m. induction fuel as [|fuel IH]; intros fp m Hlen.
  - destruct fp; [discriminate|simpl in Hlen; lia].
  - rewrite find_mounts_while_S.
    destruct (fgets buffer_size fp) as [[buffer fp']|] eqn:Ef;
      [|discriminate].
    apply fgets_progress in Ef.
    destruct (split_fields buffer) as [[[from to] fst] opts].
    unfold bind.
    destruct (process_mount_outcome true from to fst opts m)
      as [->|(r & m' & ->)]; [discriminate|].
    apply IH. lia.
Qed.

Lemma find_mounts_while_Ret (fuel : nat) (fp : string) (m m' : mem) (u : unit) :
  find_mounts_while fuel fp m = Ret u m' -> preserved m m'.
Proof.
  revert fp m. induction fuel as [|fuel IH]; intros fp m.
  - cbn [find_mounts_while].
    destruct (fgets buffer_size fp) as [[buffer fp']|]; [discriminate|].
    intros H. inversion H; subst. apply preserved_refl.
  - rewrite find_mounts_while_S.
    destruct (fgets buffer_size fp) as [[buffer fp']|].
    + destruct (split_fields buffer) as [[[from to] fst] opts].
      unfold bind.
      destruct (process_mount true from to fst opts m) as [r m1| | |] eqn:Ep;
        try discriminate.
      intros H. apply IH in H. apply process_mount_preserved in Ep.
      eapply preserved_trans; eassumption.
    + intros H. inversion H; subst. apply preserved_refl.
Qed.

Lemma find_mounts_while_no_exit (fuel : nat) (fp : string) (m m' : mem)
  (st : Z) :
  find_mounts_while fuel fp m <> Exit st m'.
Proof.
  revert fp m. induction fuel as [|fuel IH]; intros fp m.
  - cbn [find_mounts_while].
    destruct (fgets buffer_size fp) as [[buffer fp']|]; discriminate.
  - rewrite find_mounts_while_S.
    destruct (fgets buffer_size fp) as [[buffer fp']|]; [|discriminate].
    destruct (split_fields buffer) as [[[from to] fst] opts].
    unfold bind.
    destruct (process_mount_outcome true from to fst opts m)
      as [->|(r & m1 & ->)]; [discriminate|apply IH].
Qed.

Lemma existsb_rev_eq {A : Type} (f : A -> bool) (l : list A) :
  existsb f (rev l) = existsb f l.
Proof.
  induction l as [|x l IH]; simpl; [reflexivity|].
  rewrite existsb_app, IH. simpl. rewrite orb_false_r. apply orb_comm.
Qed.

(** ** The point filter and the output stage *)

Lemma regex_nomatch_value (re : option regex_t) (n : string) (m : mem) :
  regex_nomatch re (Some n) m =
  Ret (negb match re with Some preg => preg n | None => true end) m.
Proof.
  destruct re as [preg|]; [|reflexivity].
  unfold regex_nomatch, bind, regexec, ret.
  destruct (preg n); reflexivity.
Qed.

Lemma regex_match_value (re : option regex_t) (n : string) (m : mem) :
  regex_match re (Some n) m =
  Ret (negb match re with Some preg => negb (preg n) | None => true end) m.
Proof.
  destruct re as [preg|]; [|reflexivity].
  unfold regex_match, bind, regexec, ret.
  destruct (preg n); reflexivity.
Qed.

Lemma mountinfo_foreach_eq (pr spr : option regex_t) (quiet : bool)
  (nodes : strlist) (result : Z) (m : mem) :
  mountinfo_foreach pr spr quiet nodes result m =
  Ret (if existsb (point_survives pr spr) nodes
       then EXIT_SUCCESS else result)
      (with_stdout
         (m_stdout m ++
          (if quiet then EmptyString
           else emit_lines (filter (point_survives pr spr) nodes)))
         m).
Proof.
  revert result m.
  induction nodes as [|n nodes IH]; intros result m.
  - simpl. unfold ret, with_stdout.
    destruct quiet; rewrite string_app_nil_r; destruct m; reflexivity.
  - cbn [mountinfo_foreach existsb filter].
    unfold point_survives at 1 3.
    unfold bind at 1. rewrite regex_nomatch_value.
    destruct (match pr with Some preg => preg n | None => true end);
      cbn [negb andb orb]; [|apply IH].
    unfold bind at 1. rewrite regex_match_value.
    destruct (match spr with Some preg => negb (preg n) | None => true end);
      cbn [negb andb orb]; [|apply IH].
    unfold bind at 1.
    destruct quiet; cbn [negb]; try unfold ret; try unfold printf_line;
      rewrite IH; unfold with_stdout;
      cbn [m_errno m_args m_list m_stdout emit_lines];
      rewrite ?string_app_assoc;
      destruct (existsb (point_survives pr spr) nodes); reflexivity.
Qed.

(** ** The system-call realization *)

(** Flags that meet no entry of the table leave [options] as it is. *)
Lemma optnames_for_no_match (o : list opt) (flags : Z) (options : char_p) :
  Forall (fun e => Z.land flags (o_opt e) = 0) o ->
  optnames_for o flags options = options.
Proof.
  revert flags options.
  induction o as [|e o IH]; intros flags options Hall; [reflexivity|].
  inversion Hall as [|? ? He Ho]; subst. cbn [optnames_for].
  destruct ((flags =? 0) || (o_opt e =? 0)); [reflexivity|].
  rewrite He. cbn [Z.eqb]. apply IH.
  apply Forall_forall. intros e' He'.
  rewrite Forall_forall in Ho. specialize (Ho e' He').
  rewrite <- Z.land_assoc, (Z.land_comm (Z.lnot (o_opt e))), Z.land_assoc.
  rewrite Ho. apply Z.land_0_l.
Qed.

Section Pipeline.

Context {hdr : sys_mount_h}.

Lemma find_mounts_for_Ret (mnts : list statfs) (m m' : mem) (u : unit) :
  find_mounts_for mnts m = Ret u m' -> preserved m m'.
Proof.
  revert m. induction mnts as [|mnt mnts IH]; intros m; cbn [find_mounts_for].
  - intros H. inversion H; subst. apply preserved_refl.
  - unfold bind.
    destruct (process_mount false _ _ _ _ m) as [r m1| | |] eqn:Ep;
      try discriminate.
    intros H. apply IH in H. apply process_mount_preserved in Ep.
    eapply preserved_trans; eassumption.
Qed.

Lemma find_mounts_for_outcome (mnts : list statfs) (m : mem) :
  find_mounts_for mnts m = Fault \/
  exists m', find_mounts_for mnts m = Ret tt m'.
Proof.
  revert m. induction mnts as [|mnt mnts IH]; intros m; cbn [find_mounts_for].
  - right. eexists. reflexivity.
  - unfold bind.
    destruct (process_mount_outcome false (Some (f_mntfromname mnt))
                (Some (f_mntonname mnt)) (Some (f_fstypename mnt))
                (optnames_for optnames
                   (to_int (Z.land (f_flags mnt) MNT_VISFLAGMASK)) None) m)
      as [->|(r & m1 & ->)]; [now left|apply IH].
Qed.

(** What [find_mounts] returns: the accumulated list, in strictly
    ascending order, the configuration and standard output untouched. *)
Lemma find_mounts_Ret (o : os) (m m1 : mem) (nodes : strlist) :
  find_mounts o m = Ret nodes m1 ->
  nodes = m_list m1 /\
  m_args m1 = m_args m /\
  m_stdout m1 = m_stdout m /\
  ascending nodes.
Proof.
  assert (Hnil : ascending []) by constructor.
  destruct o as [[fp|]|mnts]; cbn [find_mounts find_mounts_linux].
  - unfold bind at 1. unfold set_list at 1. unfold bind at 1.
    destruct (find_mounts_while _ _ _) as [u m2| | |] eqn:E; try discriminate.
    unfold get_list. intros H. inversion H; subst.
    apply find_mounts_while_Ret in E. destruct E as (Ha & Ho & _ & Hs).
    simpl in *. auto.
  - discriminate.
  - destruct mnts as [|mnt mnts]; [discriminate|].
    unfold find_mounts_bsd.
    unfold bind at 1. unfold set_list at 1. unfold bind at 1.
    destruct (find_mounts_for _ _) as [u m2| | |] eqn:E; try discriminate.
    unfold get_list. intros H. inversion H; subst.
    apply find_mounts_for_Ret in E. destruct E as (Ha & Ho & _ & Hs).
    simpl in *. auto.
Qed.

(** The model of [find_mounts] never runs out of fuel, and the only way
    it leaves the process is [eerrorx]. *)
Lemma find_mounts_outcome (o : os) (m : mem) :
  find_mounts o m = Fault \/
  find_mounts o m = Exit EXIT_FAILURE m \/
  exists nodes m1, find_mounts o m = Ret nodes m1.
Proof.
  destruct o as [[fp|]|[|mnt mnts]];
    unfold find_mounts, find_mounts_linux, find_mounts_bsd;
    try (right; left; reflexivity);
    unfold bind, set_list, get_list.
  - destruct (find_mounts_while _ _ _) as [u m2|st m2| |] eqn:E.
    + right. right. do 2 eexists. reflexivity.
    + exfalso. exact (find_mounts_while_no_exit _ _ _ _ _ E).
    + now left.
    + exfalso. revert E. apply find_mounts_while_fuel. lia.
  - destruct (find_mounts_for_outcome (mnt :: mnts)
                (mkmem (m_errno m) (m_args m) [] (m_stdout m)))
      as [E|(m2 & E)]; unfold bind in E; rewrite E.
    + now left.
    + right. right. do 2 eexists. reflexivity.
Qed.

(** [mountinfo] once [find_mounts] has returned: the list is reversed,
    filtered, printed unless quiet, and decides the exit status. *)
Lemma mountinfo_run (o : os) (a : args) (pr spr : option regex_t)
  (quiet : bool) (nodes : strlist) (m1 : mem) :
  find_mounts o (initial_mem a) = Ret nodes m1 ->
  mountinfo o a pr spr quiet =
  Exit (if existsb (point_survives pr spr) nodes
        then EXIT_SUCCESS else EXIT_FAILURE)
       (with_stdout
          (if quiet then EmptyString
           else emit_lines
                  (filter (point_survives pr spr)
                     (rc_strlist_reverse nodes)))
          m1).
Proof.
  intros H. unfold mountinfo. fold (initial_mem a).
  unfold bind at 1. rewrite H.
  apply find_mounts_Ret in H. destruct H as (_ & _ & Ho & _).
  unfold bind at 1. rewrite mountinfo_foreach_eq.
  unfold exit, rc_strlist_reverse. rewrite existsb_rev_eq.
  unfold with_stdout. cbn [m_errno m_args m_list m_stdout].
  rewrite Ho. reflexivity.
Qed.

(** The model of [mountinfo] is total: it ends in [exit], or in a
    fault of [find_mounts]. *)
Lemma mountinfo_outcome (o : os) (a : args) (pr spr : option regex_t)
  (quiet : bool) :
  mountinfo o a pr spr quiet = Fault \/
  exists st m, mountinfo o a pr spr quiet = Exit st m.
Proof.
  destruct (find_mounts_outcome o (initial_mem a))
    as [H|[H|(nodes & m1 & H)]].
  - left. unfold mountinfo. fold (initial_mem a).
    unfold bind at 1. now rewrite H.
  - right. unfold mountinfo. fold (initial_mem a).
    unfold bind at 1. rewrite H. eauto.
  - right. rewrite (mountinfo_run o a pr spr quiet nodes m1 H). eauto.
Qed.

(** ** The predicate set *)

Lemma first_verdict_cases (checks : list verdict) :
  (first_verdict checks = Pass /\ Forall (eq Pass) checks) \/
  (exists c, first_verdict checks = Reject c /\ In (Reject c) checks) \/
  (first_verdict checks = Undefined /\ In Undefined checks).
Proof.
  induction checks as [|v checks IH]; simpl.
  - left. split; [reflexivity|constructor].
  - destruct v.
    + destruct IH as [[E H]|[(c & E & H)|[E H]]].
      * left. split; [assumption|constructor; auto].
      * right. left. exists c. auto.
      * right. right. auto.
    + right. left. exists code. auto.
    + right. right. auto.
Qed.

(** C1: For every mount record and filter configuration, [process_mount]
    evaluates the checks in the order of the specification with
    short-circuit rejection: first the rootfs exclusion (on Linux), then
    nodeInclude, nodeExclude, fstypeInclude, fstypeExclude,
    optionsInclude, optionsExclude and the targets membership test; the
    first check that does not pass decides the outcome, and the selected
    field is accumulated only for a record that passes all of them. *)
Theorem process_mount_evaluation_order (on_linux : bool)
  (from to fstype options : char_p) (m : mem) :
  process_mount on_linux from to fstype options m
  = predicate_set on_linux from to fstype options m
  /\
  match process_mount on_linux from to fstype options m with
  | Ret r m' =>
      (r = 0 /\
       Forall (eq Pass)
         (predicate_checks on_linux (m_args m) from to fstype options) /\
       exists p,
         select_field (args_mount_type (m_args m)) from to fstype options
         = Some p /\
         m_list m' = rc_strlist_addsortc (m_list m) p)
      \/ (r <> 0 /\ m_list m' = m_list m)
  | Fault =>
      first_verdict
        (predicate_checks on_linux (m_args m) from to fstype options)
      = Undefined
  | Exit _ _ | OutOfFuel => False
  end.
Proof.
  split; [apply process_mount_eq|].
  rewrite process_mount_eq. unfold predicate_set.
  destruct (first_verdict_cases
              (predicate_checks on_linux (m_args m) from to fstype options))
    as [[E H]|[(c & E & H)|[E H]]]; rewrite E.
  - destruct (select_field _ _ _ _ _) as [p|] eqn:Es.
    + left. repeat split; auto. exists p. auto.
    + right. split; [discriminate|reflexivity].
  - right. split; [|reflexivity].
    unfold predicate_checks in H. simpl in H.
    repeat (destruct H as [H|H];
            [ first [ apply platform_artifact_code in H
                    | apply include_check_code in H
                    | apply exclude_check_code in H
                    | apply targets_check_code in H ]; lia | ]).
    contradiction.
  - reflexivity.
Qed.

(** In the value embedding: [process_mount] leaves the [struct args]
    as it was and prints nothing; of the record, only the value of the
    selected field can enter the accumulated list. *)
Theorem process_mount_keeps_config (on_linux : bool)
  (from to fstype options : char_p) (m : mem) :
  match process_mount on_linux from to fstype options m with
  | Ret r m' =>
      m_args m' = m_args m /\
      m_stdout m' = m_stdout m /\
      (m_list m' = m_list m \/
       exists p,
         select_field (args_mount_type (m_args m)) from to fstype options
         = Some p /\
         m_list m' = rc_strlist_addsortc (m_list m) p)
  | Fault => True
  | Exit _ _ | OutOfFuel => False
  end.
Proof.
  destruct (process_mount on_linux from to fstype options m)
    as [r m'|st m'| |] eqn:E; trivial.
  - apply process_mount_frame in E.
    destruct E as (Ha & Ho & [(_ & Hl & _)|(_ & _ & p & Hp & Hl)]);
      (split; [assumption|split; [assumption|]]).
    + now left.
    + right. exists p. now split.
  - destruct (process_mount_outcome on_linux from to fstype options m)
      as [H|(r & m1 & H)]; congruence.
  - destruct (process_mount_outcome on_linux from to fstype options m)
      as [H|(r & m1 & H)]; congruence.
Qed.

Lemma include_check_defined (re : option regex_t) (s : string) (code : Z) :
  include_check re (Some s) code <> Undefined.
Proof. destruct re as [preg|]; simpl; [destruct (preg s)|]; discriminate. Qed.

Lemma exclude_check_defined (re : option regex_t) (s : string) (code : Z) :
  exclude_check re (Some s) code <> Undefined.
Proof. destruct re as [preg|]; simpl; [destruct (preg s)|]; discriminate. Qed.

Lemma platform_artifact_defined (on_linux : bool) (s : string) :
  platform_artifact on_linux (Some s) <> Undefined.
Proof.
  destruct on_linux; simpl; [destruct (String.eqb s "rootfs")|];
    discriminate.
Qed.

Lemma targets_check_defined (l : strlist) (s : string) :
  targets_check l (Some s) <> Undefined.
Proof.
  destruct l as [|x l]; [discriminate|].
  unfold targets_check. destruct (existsb _ _); discriminate.
Qed.

(** C6: When the targets list is not empty, the membership test is whole
    string, case-sensitive equality of the target with some member,
    whatever the order of the list; a record whose target is no member
    is rejected. *)
Theorem targets_exact_membership (l : strlist) (to : string) (m : mem) :
  l <> [] ->
  mounts_reject l (Some to) m = Ret (negb (existsb (String.eqb to) l)) m
  /\ (existsb (String.eqb to) l = true <-> In to l)
  /\ (forall l', Permutation l l' ->
        mounts_reject l' (Some to) m = mounts_reject l (Some to) m)
  /\ (forall on_linux from fstype options,
        mounts (m_args m) = l -> ~ In to l ->
        exists r,
          process_mount on_linux (Some from) (Some to) (Some fstype)
            (Some options) m
          = Ret r (with_errno ENOENT m)
          /\ r <> 0).
Proof.
  intros Hne.
  assert (Hrej : forall k, k <> [] ->
            mounts_reject k (Some to) m
            = Ret (negb (existsb (String.eqb to) k)) m).
  { intros [|x k] Hk; [congruence|].
    unfold mounts_reject, bind. now rewrite mounts_found_eq. }
  split; [now apply Hrej|].
  split; [apply existsb_eqb_In|].
  split.
  - intros l' Hp.
    assert (Hne' : l' <> []).
    { intros ->. apply Permutation_sym, Permutation_nil in Hp. congruence. }
    rewrite !Hrej by assumption. f_equal. f_equal.
    destruct (existsb (String.eqb to) l) eqn:E.
    + apply existsb_eqb_In. apply existsb_eqb_In in E.
      eapply Permutation_in; eassumption.
    + destruct (existsb (String.eqb to) l') eqn:E'; [|reflexivity].
      apply existsb_eqb_In in E'.
      apply (Permutation_in _ (Permutation_sym Hp)) in E'.
      apply existsb_eqb_In in E'. congruence.
  - intros on_linux from fstype options Hm Hin.
    rewrite process_mount_eq. unfold predicate_set.
    assert (Ht : targets_check (mounts (m_args m)) (Some to) = Reject (-1)).
    { rewrite Hm. destruct l as [|x k]; [congruence|].
      unfold targets_check.
      destruct (existsb (String.eqb to) (x :: k)) eqn:E; [|reflexivity].
      apply existsb_eqb_In in E. contradiction. }
    destruct (first_verdict_cases
                (predicate_checks on_linux (m_args m) (Some from) (Some to)
                   (Some fstype) (Some options)))
      as [[E H]|[(c & E & H)|[E H]]]; rewrite E.
    + exfalso. rewrite Forall_forall in H.
      specialize (H (targets_check (mounts (m_args m)) (Some to))).
      rewrite Ht in H. discriminate H.
      unfold predicate_checks. rewrite Ht. simpl. tauto.
    + exists c. split; [reflexivity|].
      unfold predicate_checks in H. simpl in H.
      repeat (destruct H as [H|H];
              [ first [ apply platform_artifact_code in H
                      | apply include_check_code in H
                      | apply exclude_check_code in H
                      | apply targets_check_code in H ]; lia | ]).
      contradiction.
    + exfalso. unfold predicate_checks in H. simpl in H.
      repeat (destruct H as [H|H];
              [ first [ apply platform_artifact_defined in H
                      | apply include_check_defined in H
                      | apply exclude_check_defined in H
                      | apply targets_check_defined in H ]; exact H | ]).
      contradiction.
Qed.

(** ** The accumulator, the point filter and the exit status *)

(** C2: For every mount table, the list [find_mounts] accumulates is in
    ascending [strcmp] order; [mountinfo] reverses it once, so the
    values handed to the point filter, and the values printed, are in
    descending order. *)
Theorem selection_descending_order (o : os) (a : args)
  (pr spr : option regex_t) (quiet : bool) (nodes : strlist) (m1 : mem) :
  find_mounts o (initial_mem a) = Ret nodes m1 ->
  ascending nodes
  /\ descending (rc_strlist_reverse nodes)
  /\ exists st m emitted,
       mountinfo o a pr spr quiet = Exit st m
       /\ emitted = filter (point_survives pr spr) (rc_strlist_reverse nodes)
       /\ descending emitted
       /\ m_stdout m = if quiet then EmptyString else emit_lines emitted.
Proof.
  intros H. pose proof (find_mounts_Ret _ _ _ _ H) as (_ & _ & _ & Hasc).
  assert (Hdesc : descending (rc_strlist_reverse nodes))
    by now apply ascending_rev.
  split; [assumption|]. split; [assumption|].
  rewrite (mountinfo_run o a pr spr quiet nodes m1 H).
  do 3 eexists. split; [reflexivity|]. split; [reflexivity|].
  split; [now apply StronglySorted_filter|].
  destruct quiet; reflexivity.
Qed.

(** The list [find_mounts] returns has no duplicates, and neither has
    the list of the values that survive the point filter; a record
    whose selected value is in the list already adds no entry. *)
Theorem selection_no_duplicates (o : os) (a : args)
  (pr spr : option regex_t) (nodes : strlist) (m1 : mem) :
  find_mounts o (initial_mem a) = Ret nodes m1 ->
  NoDup nodes
  /\ (forall v, In v nodes -> count_occ string_dec nodes v = 1%nat)
  /\ NoDup (filter (point_survives pr spr) (rc_strlist_reverse nodes))
  /\ (forall on_linux from to fstype options m m',
        process_mount on_linux from to fstype options m = Ret 0 m' ->
        exists p,
          select_field (args_mount_type (m_args m)) from to fstype options
          = Some p
          /\ In p (m_list m')
          /\ (In p (m_list m) -> m_list m' = m_list m)).
Proof.
  intros H. pose proof (find_mounts_Ret _ _ _ _ H) as (_ & _ & _ & Hasc).
  assert (Hnd : NoDup nodes) by now apply ascending_NoDup.
  split; [assumption|]. split; [|split].
  - intros v Hv. apply NoDup_count_occ'; assumption.
  - apply NoDup_filter. unfold rc_strlist_reverse. now apply NoDup_rev.
  - intros on_linux from to fstype options m m'.
    apply process_mount_accumulates_once.
Qed.

(** C5: The point filter runs over the accumulated values; a value is
    printed exactly when pointInclude, if set, matches it and
    pointExclude, if set, does not; a skipped value does not end the
    pass. *)
Theorem point_filter_on_values (o : os) (a : args)
  (pr spr : option regex_t) (nodes : strlist) (m1 : mem) :
  find_mounts o (initial_mem a) = Ret nodes m1 ->
  exists st m,
    mountinfo o a pr spr false = Exit st m
    /\ m_stdout m
       = emit_lines
           (filter (point_survives pr spr) (rc_strlist_reverse nodes))
    /\ forall v,
         In v (filter (point_survives pr spr) (rc_strlist_reverse nodes))
         <-> In v nodes /\ point_survives pr spr v = true.
Proof.
  intros H. rewrite (mountinfo_run o a pr spr false nodes m1 H).
  do 2 eexists. split; [reflexivity|]. split; [reflexivity|].
  intros v. rewrite filter_In. unfold rc_strlist_reverse.
  rewrite <- in_rev. reflexivity.
Qed.

(** C3: The exit status is [EXIT_SUCCESS] exactly when some accumulated
    value survives the point filter, and [EXIT_FAILURE] otherwise; the
    quiet setting empties standard output and leaves the status as it
    is. *)
Theorem exit_status_survival (o : os) (a : args)
  (pr spr : option regex_t) (quiet : bool) (nodes : strlist) (m1 : mem) :
  find_mounts o (initial_mem a) = Ret nodes m1 ->
  exists st m,
    mountinfo o a pr spr quiet = Exit st m
    /\ (st = EXIT_SUCCESS <->
        exists v, In v nodes /\ point_survives pr spr v = true)
    /\ (st <> EXIT_SUCCESS -> st = EXIT_FAILURE)
    /\ (forall quiet', exists m', mountinfo o a pr spr quiet' = Exit st m')
    /\ (quiet = true -> m_stdout m = EmptyString).
Proof.
  intros H. rewrite (mountinfo_run o a pr spr quiet nodes m1 H).
  do 2 eexists. split; [reflexivity|].
  destruct (existsb (point_survives pr spr) nodes) eqn:E.
  - split; [|split; [|split]].
    + split; [|reflexivity]. intros _.
      apply existsb_exists in E. exact E.
    + congruence.
    + intros q. rewrite (mountinfo_run o a pr spr q nodes m1 H), E. eauto.
    + intros ->. reflexivity.
  - split; [|split; [|split]].
    + split; [discriminate|].
      intros Hex. apply existsb_exists in Hex. congruence.
    + reflexivity.
    + intros q. rewrite (mountinfo_run o a pr spr q nodes m1 H), E. eauto.
    + intros ->. reflexivity.
Qed.

(** ** Records with a [NULL] options field *)

Lemma find_mounts_while_line (fuel : nat) (text rest : string) (m : mem)
  (from to fst opts : char_p) :
  line_text text = true -> fits_buffer text ->
  split_fields (text ++ nl) = (from, to, fst, opts) ->
  find_mounts_while (S fuel) (text ++ nl ++ rest) m
  = (process_mount true from to fst opts ;;;
     find_mounts_while fuel rest) m.
Proof.
  intros Ht Hf Hs.
  rewrite find_mounts_while_S, (fgets_line text rest Ht Hf), Hs.
  reflexivity.
Qed.

(** With no options regex configured, a record whose options are [NULL]
    is evaluated without a fault; when the options are the selected
    field it is rejected. *)
Lemma process_mount_null_options (on_linux : bool) (from to fstype : string)
  (m : mem) :
  options_regex (m_args m) = None ->
  skip_options_regex (m_args m) = None ->
  exists r m',
    process_mount on_linux (Some from) (Some to) (Some fstype) None m
    = Ret r m'
    /\ (args_mount_type (m_args m) = mount_options ->
        r <> 0 /\ m_list m' = m_list m)
    /\ (first_verdict
          (predicate_checks on_linux (m_args m) (Some from) (Some to)
             (Some fstype) None) = Pass ->
        args_mount_type (m_args m) <> mount_options ->
        r = 0 /\
        exists p,
          select_field (args_mount_type (m_args m)) (Some from) (Some to)
            (Some fstype) None = Some p
          /\ m_list m' = rc_strlist_addsortc (m_list m) p).
Proof.
  intros Ho Hso. rewrite process_mount_eq. unfold predicate_set.
  destruct (first_verdict_cases
              (predicate_checks on_linux (m_args m) (Some from) (Some to)
                 (Some fstype) None))
    as [[E H]|[(c & E & H)|[E H]]]; rewrite E.
  - destruct (args_mount_type (m_args m)) eqn:Et; cbn [select_field];
      do 2 eexists; (split; [reflexivity|]); split;
      first [ intros Hd; discriminate Hd
            | intros _ Hc; exfalso; apply Hc; reflexivity
            | intros _; split; [discriminate|reflexivity]
            | intros _ _; split; [reflexivity|eexists; split; reflexivity] ].
  - do 2 eexists. split; [reflexivity|]. split; [|discriminate].
    intros _. split; [|reflexivity].
    unfold predicate_checks in H. simpl in H.
    repeat (destruct H as [H|H];
            [ first [ apply platform_artifact_code in H
                    | apply include_check_code in H
                    | apply exclude_check_code in H
                    | apply targets_check_code in H ]; lia | ]).
    contradiction.
  - exfalso. unfold predicate_checks in H. rewrite Ho, Hso in H.
    simpl in H.
    repeat (destruct H as [H|H];
            [ first [ apply platform_artifact_defined in H
                    | apply include_check_defined in H
                    | apply exclude_check_defined in H
                    | apply targets_check_defined in H
                    | discriminate H ]; try exact H | ]).
    contradiction.
Qed.

(** C7 (amended): In the table-file realization a line of exactly three
    fields is not dropped: it reaches [process_mount] with its three
    fields and [NULL] options.  When no options regex is configured the
    evaluation returns and the loop goes on with the remaining lines;
    the line contributes nothing when the options are the selected
    field, and its selected field is accumulated when every check
    passes and another field is selected. *)
Theorem three_field_line_processed (from to fst rest : string) (fuel : nat)
  (m : mem) :
  is_field from = true -> is_field to = true -> is_field fst = true ->
  fits_buffer (line3 from to fst) ->
  options_regex (m_args m) = None ->
  skip_options_regex (m_args m) = None ->
  split_fields (line3 from to fst ++ nl)
  = (Some from, Some to, Some (fst ++ nl), None)
  /\ exists r m',
       process_mount true (Some from) (Some to) (Some (fst ++ nl)) None m
       = Ret r m'
       /\ find_mounts_while (S fuel) (line3 from to fst ++ nl ++ rest) m
          = find_mounts_while fuel rest m'
       /\ (args_mount_type (m_args m) = mount_options ->
           r <> 0 /\ m_list m' = m_list m)
       /\ (first_verdict
             (predicate_checks true (m_args m) (Some from) (Some to)
                (Some (fst ++ nl)) None) = Pass ->
           args_mount_type (m_args m) <> mount_options ->
           r = 0 /\
           exists p,
             select_field (args_mount_type (m_args m)) (Some from) (Some to)
               (Some (fst ++ nl)) None = Some p
             /\ m_list m' = rc_strlist_addsortc (m_list m) p).
Proof.
  intros H1 H2 H3 Hf Ho Hso.
  assert (Hs : split_fields (line3 from to fst ++ nl)
               = (Some from, Some to, Some (fst ++ nl), None)).
  { unfold line3. rewrite !string_app_assoc.
    now apply split_fields_three. }
  split; [exact Hs|].
  destruct (process_mount_null_options true from to (fst ++ nl) m Ho Hso)
    as (r & m' & Hp & Hopt & Hacc).
  exists r, m'. split; [exact Hp|]. split; [|split; assumption].
  assert (Ht : line_text (line3 from to fst) = true).
  { unfold line3. auto 12 using line_text_space, is_field_line_text. }
  rewrite (find_mounts_while_line fuel _ rest m _ _ _ _ Ht Hf Hs).
  unfold bind. rewrite Hp. reflexivity.
Qed.

(** C8 (amended): In the system-call realization a mount entry whose
    visible flags meet no entry of the flag-name table is processed with
    [NULL] options, not with an empty string.  The record still goes
    through [process_mount]; when no options regex is configured the
    evaluation returns and the loop goes on, and when the options are
    the selected field the record is rejected and contributes
    nothing. *)
Theorem zero_flags_null_options (mnt : statfs) (mnts : list statfs)
  (m : mem) :
  Forall
    (fun e =>
       Z.land (to_int (Z.land (f_flags mnt) MNT_VISFLAGMASK)) (o_opt e) = 0)
    optnames ->
  options_regex (m_args m) = None ->
  skip_options_regex (m_args m) = None ->
  optnames_for optnames (to_int (Z.land (f_flags mnt) MNT_VISFLAGMASK)) None
  = None
  /\ exists r m',
       process_mount false (Some (f_mntfromname mnt))
         (Some (f_mntonname mnt)) (Some (f_fstypename mnt)) None m
       = Ret r m'
       /\ find_mounts_for (mnt :: mnts) m = find_mounts_for mnts m'
       /\ (args_mount_type (m_args m) = mount_options ->
           r <> 0 /\ m_list m' = m_list m).
Proof.
  intros Hz Ho Hso.
  pose proof (optnames_for_no_match _ _ None Hz) as Hn.
  split; [exact Hn|].
  destruct (process_mount_null_options false (f_mntfromname mnt)
              (f_mntonname mnt) (f_fstypename mnt) m Ho Hso)
    as (r & m' & Hp & Hopt & _).
  exists r, m'. split; [exact Hp|]. split; [|exact Hopt].
  cbn [find_mounts_for]. rewrite Hn. unfold bind. rewrite Hp. reflexivity.
Qed.

(** ** The newline of a four-field line *)

Lemma find_mounts_while_end (fuel : nat) (m : mem) :
  find_mounts_while fuel EmptyString m = Ret tt m.
Proof. destruct fuel; reflexivity. Qed.

(** C10: The table-file realization never strips the newline of a line:
    on a line of exactly four fields, [process_mount] receives the
    options with the trailing newline, so the options regex is matched
    against, and with the options selected the applet prints, a value
    that ends in that newline; on a line of five or more fields the
    options come without it. *)
Theorem options_keep_newline (from to fst opts extra rest : string)
  (fuel : nat) (m : mem) (re : regex_t) :
  is_field from = true -> is_field to = true -> is_field fst = true ->
  is_field opts = true -> line_text extra = true ->
  fits_buffer (line4 from to fst opts) ->
  fits_buffer (line5 from to fst opts extra) ->
  fst <> "rootfs" ->
  find_mounts_while (S fuel) (line4 from to fst opts ++ nl ++ rest) m
  = (process_mount true (Some from) (Some to) (Some fst)
       (Some (opts ++ nl)) ;;;
     find_mounts_while fuel rest) m
  /\
  find_mounts_while (S fuel) (line5 from to fst opts extra ++ nl ++ rest) m
  = (process_mount true (Some from) (Some to) (Some fst) (Some opts) ;;;
     find_mounts_while fuel rest) m
  /\
  let a := mkargs None None None None (Some re) None [] mount_options in
  mountinfo (linux (Some (line4 from to fst opts ++ nl))) a None None false
  = if re (opts ++ nl)
    then Exit EXIT_SUCCESS (mkmem 0 a [opts ++ nl] (opts ++ nl ++ nl))
    else Exit EXIT_FAILURE (mkmem ENOENT a [] EmptyString).
Proof.
  intros H1 H2 H3 H4 H5 Hf4 Hf5 Hroot.
  assert (Ht4 : line_text (line4 from to fst opts) = true).
  { unfold line4. auto 12 using line_text_space, is_field_line_text. }
  assert (Ht5 : line_text (line5 from to fst opts extra) = true).
  { unfold line5. auto 12 using line_text_space, is_field_line_text. }
  assert (Hs4 : split_fields (line4 from to fst opts ++ nl)
                = (Some from, Some to, Some fst, Some (opts ++ nl))).
  { unfold line4. rewrite !string_app_assoc.
    now apply split_fields_four. }
  assert (Hs5 : split_fields (line5 from to fst opts extra ++ nl)
                = (Some from, Some to, Some fst, Some opts)).
  { unfold line5. rewrite !string_app_assoc.
    now apply split_fields_more. }
  split; [now apply find_mounts_while_line|].
  split; [now apply find_mounts_while_line|].
  intros a. unfold mountinfo, find_mounts, find_mounts_linux.
  rewrite string_length_app. cbn [String.length nl]. rewrite Nat.add_1_r.
  unfold bind at 1. unfold bind at 1. unfold set_list at 1.
  unfold bind at 1.
  change (line4 from to fst opts ++ nl)
    with (line4 from to fst opts ++ nl ++ EmptyString).
  rewrite (find_mounts_while_line _ _ EmptyString _ _ _ _ _ Ht4 Hf4 Hs4).
  unfold bind at 1. rewrite process_mount_eq.
  unfold predicate_set, predicate_checks, a.
  cbn [m_args m_list m_errno m_stdout node_regex skip_node_regex
       fstype_regex skip_fstype_regex options_regex skip_options_regex
       mounts args_mount_type include_check exclude_check targets_check
       platform_artifact first_verdict select_field].
  destruct (String.eqb_spec fst "rootfs") as [->|_]; [congruence|].
  destruct (re (opts ++ nl)).
  - rewrite find_mounts_while_end. unfold get_list.
    cbn [with_list with_errno m_args m_list m_errno m_stdout].
    unfold rc_strlist_reverse, rc_strlist_addsortc.
    cbn [existsb insert_sorted rev app mountinfo_foreach].
    unfold bind, regex_nomatch, regex_match, ret, printf_line, exit.
    unfold with_list, with_errno, initial_mem.
    cbn [negb m_args m_list m_errno m_stdout append].
    rewrite string_app_assoc. reflexivity.
  - rewrite find_mounts_while_end. unfold get_list.
    cbn [with_list with_errno m_args m_list m_errno m_stdout].
    reflexivity.
Qed.

End Pipeline.

(** * Closed instances *)

(** The scenario of the specification: selecting the filesystem type
    prints [tmpfs] before [ext4]. *)
Lemma selection_descending_order_witness :
  find_mounts (hdr := sample_mount_h) (linux (Some scenario_table))
    (initial_mem (no_filters mount_fstype))
  = Ret ["ext4"; "tmpfs"]
      (mkmem 0 (no_filters mount_fstype) ["ext4"; "tmpfs"] EmptyString)
  /\
  (ascending ["ext4"; "tmpfs"]
   /\ descending (rc_strlist_reverse ["ext4"; "tmpfs"])
   /\ exists st m emitted,
        mountinfo (hdr := sample_mount_h) (linux (Some scenario_table))
          (no_filters mount_fstype) None None false = Exit st m
        /\ emitted = filter (point_survives None None)
                       (rc_strlist_reverse ["ext4"; "tmpfs"])
        /\ descending emitted
        /\ m_stdout m = emit_lines emitted).
Proof.
  assert (H : find_mounts (hdr := sample_mount_h)
                (linux (Some scenario_table))
                (initial_mem (no_filters mount_fstype))
              = Ret ["ext4"; "tmpfs"]
                  (mkmem 0 (no_filters mount_fstype) ["ext4"; "tmpfs"]
                     EmptyString))
    by (vm_compute; reflexivity).
  split; [exact H|].
  exact (selection_descending_order (linux (Some scenario_table))
           (no_filters mount_fstype) None None false _ _ H).
Defined.

(** Two mounts of type [ext4] give one entry. *)
Lemma selection_no_duplicates_witness :
  find_mounts (hdr := sample_mount_h) (linux (Some two_ext4_table))
    (initial_mem (no_filters mount_fstype))
  = Ret ["ext4"] (mkmem 0 (no_filters mount_fstype) ["ext4"] EmptyString)
  /\
  (NoDup ["ext4"]
   /\ (forall v, In v ["ext4"] -> count_occ string_dec ["ext4"] v = 1%nat)
   /\ NoDup (filter (point_survives None None)
               (rc_strlist_reverse ["ext4"]))).
Proof.
  assert (H : find_mounts (hdr := sample_mount_h)
                (linux (Some two_ext4_table))
                (initial_mem (no_filters mount_fstype))
              = Ret ["ext4"]
                  (mkmem 0 (no_filters mount_fstype) ["ext4"] EmptyString))
    by (vm_compute; reflexivity).
  split; [exact H|].
  destruct (selection_no_duplicates (linux (Some two_ext4_table))
              (no_filters mount_fstype) None None _ _ H)
    as (Hnd & Hc & Hf & _).
  split; [exact Hnd|]. split; [exact Hc|exact Hf].
Defined.

(** With the filesystem type selected and pointInclude [^ext], the
    scenario prints [ext4], not a mount point. *)
Lemma point_filter_on_values_witness :
  find_mounts (hdr := sample_mount_h) (linux (Some scenario_table))
    (initial_mem (no_filters mount_fstype))
  = Ret ["ext4"; "tmpfs"]
      (mkmem 0 (no_filters mount_fstype) ["ext4"; "tmpfs"] EmptyString)
  /\
  exists st m,
    mountinfo (hdr := sample_mount_h) (linux (Some scenario_table))
      (no_filters mount_fstype) (Some starts_with_ext) None false
    = Exit st m
    /\ m_stdout m
       = emit_lines
           (filter (point_survives (Some starts_with_ext) None)
              (rc_strlist_reverse ["ext4"; "tmpfs"]))
    /\ forall v,
         In v (filter (point_survives (Some starts_with_ext) None)
                 (rc_strlist_reverse ["ext4"; "tmpfs"]))
         <-> In v ["ext4"; "tmpfs"]
             /\ point_survives (Some starts_with_ext) None v = true.
Proof.
  assert (H : find_mounts (hdr := sample_mount_h)
                (linux (Some scenario_table))
                (initial_mem (no_filters mount_fstype))
              = Ret ["ext4"; "tmpfs"]
                  (mkmem 0 (no_filters mount_fstype) ["ext4"; "tmpfs"]
                     EmptyString))
    by (vm_compute; reflexivity).
  split; [exact H|].
  exact (point_filter_on_values (linux (Some scenario_table))
           (no_filters mount_fstype) (Some starts_with_ext) None _ _ H).
Defined.

(** With [RC_QUIET=yes] and a matching record the status is 0 and
    nothing is printed. *)
Lemma exit_status_survival_witness :
  find_mounts (hdr := sample_mount_h) (linux (Some scenario_table))
    (initial_mem (no_filters mount_fstype))
  = Ret ["ext4"; "tmpfs"]
      (mkmem 0 (no_filters mount_fstype) ["ext4"; "tmpfs"] EmptyString)
  /\
  exists st m,
    mountinfo (hdr := sample_mount_h) (linux (Some scenario_table))
      (no_filters mount_fstype) (Some starts_with_ext) None true
    = Exit st m
    /\ (st = EXIT_SUCCESS <->
        exists v, In v ["ext4"; "tmpfs"]
                  /\ point_survives (Some starts_with_ext) None v = true)
    /\ (st <> EXIT_SUCCESS -> st = EXIT_FAILURE)
    /\ (forall quiet',
          exists m',
            mountinfo (hdr := sample_mount_h) (linux (Some scenario_table))
              (no_filters mount_fstype) (Some starts_with_ext) None quiet'
            = Exit st m')
    /\ (true = true -> m_stdout m = EmptyString).
Proof.
  assert (H : find_mounts (hdr := sample_mount_h)
                (linux (Some scenario_table))
                (initial_mem (no_filters mount_fstype))
              = Ret ["ext4"; "tmpfs"]
                  (mkmem 0 (no_filters mount_fstype) ["ext4"; "tmpfs"]
                     EmptyString))
    by (vm_compute; reflexivity).
  split; [exact H|].
  exact (exit_status_survival (linux (Some scenario_table))
           (no_filters mount_fstype) (Some starts_with_ext) None true _ _ H).
Defined.

(** The target [/mnt/data] is no member of [/mnt/dat], [/mnt/data2]:
    the record is rejected. *)
Lemma targets_exact_membership_witness :
  data_targets <> []
  /\ mounts_reject data_targets (Some "/mnt/data") data_mem
     = Ret true data_mem
  /\ exists r,
       process_mount true (Some "/dev/sdb1") (Some "/mnt/data")
         (Some "ext4") (Some "rw") data_mem
       = Ret r (with_errno ENOENT data_mem)
       /\ r <> 0.
Proof.
  assert (Hne : data_targets <> []) by discriminate.
  assert (Hin : ~ In "/mnt/data" data_targets).
  { simpl. intros [H|[H|H]]; [discriminate H|discriminate H|exact H]. }
  split; [exact Hne|].
  destruct (targets_exact_membership data_targets "/mnt/data" data_mem Hne)
    as (Hrej & _ & _ & Hpm).
  split; [exact Hrej|].
  exact (Hpm true "/dev/sdb1" "ext4" "rw" eq_refl Hin).
Defined.

(** C7, as stated, fails: a line of three fields is not skipped.  With
    no filter and the mount point selected, the table made of that line
    alone prints [/run] and exits with 0, where the empty table prints
    nothing and exits with 1. *)
Lemma short_line_not_skipped :
  split_fields short_line
  = (Some "tmpfs", Some "/run", Some ("tmpfs" ++ nl), None)
  /\ mountinfo (hdr := sample_mount_h) (linux (Some short_line))
       (no_filters mount_to) None None false
     = Exit EXIT_SUCCESS
         (mkmem 0 (no_filters mount_to) ["/run"] ("/run" ++ nl))
  /\ mountinfo (hdr := sample_mount_h) (linux (Some EmptyString))
       (no_filters mount_to) None None false
     = Exit EXIT_FAILURE
         (mkmem 0 (no_filters mount_to) [] EmptyString)
  /\ ~ line_skipped (no_filters mount_to) short_line.
Proof.
  split; [vm_compute; reflexivity|].
  split; [vm_compute; reflexivity|].
  split; [vm_compute; reflexivity|].
  intros H. specialize (H EmptyString EmptyString).
  vm_compute in H. discriminate H.
Qed.

(** The line [tmpfs /run tmpfs] with no filter: it is evaluated with
    [NULL] options and the loop goes on. *)
Lemma three_field_line_processed_witness :
  is_field "tmpfs" = true /\ is_field "/run" = true
  /\ fits_buffer (line3 "tmpfs" "/run" "tmpfs")
  /\ options_regex (m_args (initial_mem (no_filters mount_to))) = None
  /\ skip_options_regex (m_args (initial_mem (no_filters mount_to))) = None
  /\ exists r m',
       process_mount true (Some "tmpfs") (Some "/run")
         (Some ("tmpfs" ++ nl)) None (initial_mem (no_filters mount_to))
       = Ret r m'
       /\ find_mounts_while 1
            (line3 "tmpfs" "/run" "tmpfs" ++ nl ++ EmptyString)
            (initial_mem (no_filters mount_to))
          = find_mounts_while 0 EmptyString m'.
Proof.
  assert (Hf : is_field "tmpfs" = true) by reflexivity.
  assert (Ht : is_field "/run" = true) by reflexivity.
  assert (Hb : fits_buffer (line3 "tmpfs" "/run" "tmpfs"))
    by (vm_compute; reflexivity).
  repeat (split; [first [assumption|reflexivity]|]).
  destruct (three_field_line_processed "tmpfs" "/run" "tmpfs" EmptyString
              0 (initial_mem (no_filters mount_to)) Hf Ht Hf Hb
              eq_refl eq_refl)
    as (_ & r & m' & Hp & Hw & _).
  exists r, m'. split; assumption.
Defined.

(** C8, as stated, fails: an entry with no visible flag is processed
    with [NULL] options.  With the options selected it contributes
    nothing and the status is 1, where the empty string would have been
    accumulated. *)
Lemma zero_flags_not_empty_string :
  optnames_for (optnames (hdr := sample_mount_h))
    (to_int (Z.land (f_flags plain_entry)
               (MNT_VISFLAGMASK (sys_mount_h := sample_mount_h))))
    None
  = None
  /\ mountinfo (hdr := sample_mount_h) (bsd [plain_entry])
       (no_filters mount_options) None None false
     = Exit EXIT_FAILURE
         (mkmem ENOENT (no_filters mount_options) [] EmptyString)
  /\ process_mount false (Some "/dev/ad0s1a") (Some "/") (Some "ufs")
       (Some EmptyString) (initial_mem (no_filters mount_options))
     = Ret 0 (mkmem 0 (no_filters mount_options) [EmptyString] EmptyString)
  /\ ~ (exists m,
          find_mounts (hdr := sample_mount_h) (bsd [plain_entry])
            (initial_mem (no_filters mount_options))
          = Ret [EmptyString] m).
Proof.
  split; [vm_compute; reflexivity|].
  split; [vm_compute; reflexivity|].
  split; [vm_compute; reflexivity|].
  intros [m H]. vm_compute in H. discriminate H.
Qed.

(** An entry whose only visible flag has no name, with the options
    selected: it is rejected and the list stays empty. *)
Lemma zero_flags_null_options_witness :
  Forall
    (fun e =>
       Z.land
         (to_int (Z.land (f_flags unnamed_flag_entry)
                    (MNT_VISFLAGMASK (sys_mount_h := sample_mount_h))))
         (o_opt e) = 0)
    (optnames (hdr := sample_mount_h))
  /\ optnames_for (optnames (hdr := sample_mount_h))
       (to_int (Z.land (f_flags unnamed_flag_entry)
                  (MNT_VISFLAGMASK (sys_mount_h := sample_mount_h))))
       None
     = None
  /\ exists r m',
       process_mount false (Some "/dev/ad0s1a") (Some "/") (Some "ufs")
         None (initial_mem (no_filters mount_options))
       = Ret r m'
       /\ find_mounts_for (hdr := sample_mount_h) [unnamed_flag_entry]
            (initial_mem (no_filters mount_options))
          = Ret tt m'
       /\ r <> 0 /\ m_list m' = [].
Proof.
  assert (Hz : Forall
                 (fun e =>
                    Z.land
                      (to_int
                         (Z.land (f_flags unnamed_flag_entry)
                            (MNT_VISFLAGMASK
                               (sys_mount_h := sample_mount_h))))
                      (o_opt e) = 0)
                 (optnames (hdr := sample_mount_h)))
    by (unfold optnames; simpl app; repeat constructor).
  split; [exact Hz|].
  destruct (zero_flags_null_options (hdr := sample_mount_h)
              unnamed_flag_entry []
              (initial_mem (no_filters mount_options)) Hz eq_refl eq_refl)
    as (Hn & r & m' & Hp & Hl & Hopt).
  split; [exact Hn|].
  exists r, m'. split; [exact Hp|]. split; [exact Hl|].
  exact (Hopt eq_refl).
Defined.

(** A line of four fields: the options are [rw] with the newline, and
    the applet prints them with it. *)
Lemma options_keep_newline_witness :
  is_field "/dev/sda1" = true /\ is_field "/" = true
  /\ is_field "ext4" = true /\ is_field "rw" = true
  /\ line_text "0 0" = true
  /\ fits_buffer (line4 "/dev/sda1" "/" "ext4" "rw")
  /\ fits_buffer (line5 "/dev/sda1" "/" "ext4" "rw" "0 0")
  /\ "ext4" <> "rootfs"
  /\ mountinfo (hdr := sample_mount_h)
       (linux (Some (line4 "/dev/sda1" "/" "ext4" "rw" ++ nl)))
       (mkargs None None None None (Some (String.eqb ("rw" ++ nl))) None []
          mount_options)
       None None false
     = Exit EXIT_SUCCESS
         (mkmem 0
            (mkargs None None None None (Some (String.eqb ("rw" ++ nl)))
               None [] mount_options)
            ["rw" ++ nl] ("rw" ++ nl ++ nl)).
Proof.
  assert (Hb4 : fits_buffer (line4 "/dev/sda1" "/" "ext4" "rw"))
    by (vm_compute; reflexivity).
  assert (Hb5 : fits_buffer (line5 "/dev/sda1" "/" "ext4" "rw" "0 0"))
    by (vm_compute; reflexivity).
  assert (Hr : "ext4" <> "rootfs") by discriminate.
  repeat (split; [first [assumption|reflexivity]|]).
  exact (proj2 (proj2
    (options_keep_newline (hdr := sample_mount_h)
       "/dev/sda1" "/" "ext4" "rw" "0 0" EmptyString 0
       (initial_mem (no_filters mount_to)) (String.eqb ("rw" ++ nl))
       eq_refl eq_refl eq_refl eq_refl eq_refl Hb4 Hb5 Hr))).
Defined.

(** ** Further behaviour at sample inputs *)

(** A line of two fields makes [process_mount] compare a [NULL]
    filesystem type. *)
Example two_field_line_faults :
  mountinfo (hdr := sample_mount_h) (linux (Some ("tmpfs /run" ++ nl)))
    (no_filters mount_to) None None false
  = Fault.
Proof. vm_compute. reflexivity. Qed.

(** With an options regex configured, [NULL] options reach [regexec]. *)
Example null_options_regex_faults :
  mountinfo (hdr := sample_mount_h) (bsd [plain_entry])
    (mkargs None None None None (Some (fun _ => true)) None [] mount_to)
    None None false
  = Fault.
Proof. vm_compute. reflexivity. Qed.

(** Flags with names are joined with commas in table order. *)
Example named_flags_options :
  mountinfo (hdr := sample_mount_h)
    (bsd [mkstatfs 0x1009 "/dev/ad0s1a" "/" "ufs"])
    (no_filters mount_options) None None false
  = Exit EXIT_SUCCESS
      (mkmem 0 (no_filters mount_options) ["local,nosuid,read-only"]
         ("local,nosuid,read-only" ++ nl)).
Proof. vm_compute. reflexivity. Qed.

(** The rootfs line is dropped before the node regex is looked at: the
    result is -1, not the 1 of a node rejection. *)
Example rootfs_before_node_regex :
  process_mount true (Some "rootfs") (Some "/") (Some "rootfs") (Some "rw")
    (initial_mem
       (mkargs (Some (fun _ => false)) None None None None None []
          mount_to))
  = Ret (-1)
      (mkmem ENOENT
         (mkargs (Some (fun _ => false)) None None None None None []
            mount_to)
         [] EmptyString).
Proof. reflexivity. Qed.

(** * Further properties of the code *)

(** ** The result of [process_mount] *)

Lemma later_checks_not_node (a : args) (to fstype options : char_p) :
  first_verdict
    [ include_check (fstype_regex a) fstype (-1);
      exclude_check (skip_fstype_regex a) fstype (-1);
      include_check (options_regex a) options (-1);
      exclude_check (skip_options_regex a) options (-1);
      targets_check (mounts a) to ]
  <> Reject 1.
Proof.
  intros H. apply first_verdict_Reject_In in H. simpl in H.
  repeat (destruct H as [H|H];
          [ first [ apply include_check_code in H
                  | apply exclude_check_code in H
                  | apply targets_check_code in H ]; lia | ]).
  contradiction.
Qed.

Lemma first_verdict_node (on_linux : bool) (a : args) (from : string)
  (to fstype options : char_p) :
  first_verdict (predicate_checks on_linux a (Some from) to fstype options)
  = Reject 1
  <-> platform_artifact on_linux fstype = Pass
      /\ node_rejects a from = true.
Proof.
  unfold predicate_checks, node_rejects.
  unfold include_check at 1. unfold exclude_check at 1.
  pose proof (later_checks_not_node a to fstype options) as Hlater.
  destruct (platform_artifact on_linux fstype) as [|c|] eqn:Ep.
  - destruct (node_regex a) as [preg|];
      destruct (skip_node_regex a) as [sreg|];
      try destruct (preg from); try destruct (sreg from);
      cbn [first_verdict negb orb];
      first [ now (split; [intros _; split; reflexivity|reflexivity])
            | split; [intros H; contradiction
                     |intros [_ H]; discriminate H] ].
  - apply platform_artifact_code in Ep. subst c. cbn [first_verdict].
    split; [discriminate|intros [H _]; discriminate H].
  - cbn [first_verdict].
    split; [discriminate|intros [H _]; discriminate H].
Qed.

(** X1: the result of [process_mount] is 0, 1 or -1.  It is 0 exactly
    when [errno] is left at 0, and then the selected field has been
    handed to the accumulator; otherwise [errno] is [ENOENT] and the
    list is untouched.  It is 1 exactly when the record passed the
    rootfs check and one of the two node regexes rejected its source. *)
Theorem process_mount_result (on_linux : bool) (from : string)
  (to fstype options : char_p) (m m' : mem) (r : Z) :
  process_mount on_linux (Some from) to fstype options m = Ret r m' ->
  (r = 0 \/ r = 1 \/ r = -1)
  /\ (r = 0 <-> m_errno m' = 0)
  /\ (r <> 0 -> m_errno m' = ENOENT /\ m_list m' = m_list m)
  /\ (r = 1 <->
      platform_artifact on_linux fstype = Pass
      /\ node_rejects (m_args m) from = true).
Proof.
  intros H. pose proof H as Hf. apply process_mount_frame in Hf.
  rewrite process_mount_eq in H. unfold predicate_set in H.
  rewrite <- first_verdict_node with (to := to) (options := options).
  destruct (first_verdict_cases
              (predicate_checks on_linux (m_args m) (Some from) to fstype
                 options))
    as [[E Hall]|[(c & E & Hin)|[E Hin]]]; rewrite E in H |- *.
  - destruct (select_field _ _ _ _ _); inversion H; subst;
      cbn [with_list with_errno m_errno m_list];
      unfold ENOENT; repeat split; intros; try lia; try discriminate;
      auto.
  - inversion H; subst. cbn [with_errno m_errno m_list].
    assert (Hc : r = 1 \/ r = -1).
    { unfold predicate_checks in Hin. simpl in Hin.
      repeat (destruct Hin as [Hin|Hin];
              [ first [ apply platform_artifact_code in Hin
                      | apply include_check_code in Hin
                      | apply exclude_check_code in Hin
                      | apply targets_check_code in Hin ]; lia | ]).
      contradiction. }
    unfold ENOENT.
    repeat split; intros; try lia; try congruence.
  - discriminate H.
Qed.

Section Further.

Context {hdr : sys_mount_h}.

(** ** What the record loops accumulate *)

Lemma fold_addsortc_In (vs : list string) (l : strlist) (v : string) :
  In v (fold_left rc_strlist_addsortc vs l) <-> In v l \/ In v vs.
Proof.
  revert l. induction vs as [|x vs IH]; intros l; simpl.
  - tauto.
  - rewrite IH, rc_strlist_addsortc_In. intuition congruence.
Qed.

(** A run of [process_mount] calls in which no check meets a [NULL]
    field returns, and has handed the selected fields of the accepted
    records to the accumulator in order. *)
Lemma process_records_defined (on_linux : bool) (rs : list record)
  (m : mem) :
  (forall r, In r rs -> record_verdict on_linux (m_args m) r <> Undefined) ->
  exists m',
    process_records on_linux rs m = Ret tt m'
    /\ m_list m'
       = fold_left rc_strlist_addsortc
           (accepted_values on_linux (m_args m) rs) (m_list m)
    /\ m_args m' = m_args m
    /\ m_stdout m' = m_stdout m.
Proof.
  revert m. induction rs as [|[[[from to] fstype] options] rs IH];
    intros m Hdef.
  - exists m. repeat split.
  - cbn [process_records]. unfold bind.
    assert (Hr := Hdef _ (or_introl eq_refl)).
    rewrite process_mount_eq. unfold predicate_set.
    unfold accepted_values. cbn [flat_map record_value].
    unfold record_verdict in Hr |- *.
    destruct (first_verdict _) as [|c|] eqn:E; [| |congruence].
    + destruct (select_field _ _ _ _ _) as [p|] eqn:Es.
      * destruct (IH (with_list (rc_strlist_addsortc (m_list m) p)
                        (with_errno 0 m)))
          as (m' & Hrun & Hl & Ha & Ho).
        { intros r Hin. apply Hdef. now right. }
        exists m'. split; [exact Hrun|]. split; [|split; assumption].
        rewrite Hl. reflexivity.
      * destruct (IH (with_errno ENOENT m))
          as (m' & Hrun & Hl & Ha & Ho).
        { intros r Hin. apply Hdef. now right. }
        exists m'. split; [exact Hrun|]. split; [|split; assumption].
        rewrite Hl. reflexivity.
    + destruct (IH (with_errno ENOENT m))
        as (m' & Hrun & Hl & Ha & Ho).
      { intros r Hin. apply Hdef. now right. }
      exists m'. split; [exact Hrun|]. split; [|split; assumption].
      rewrite Hl. reflexivity.
Qed.

Lemma find_mounts_for_records (mnts : list statfs) (m : mem) :
  find_mounts_for mnts m
  = process_records false (map statfs_record mnts) m.
Proof.
  revert m. induction mnts as [|mnt mnts IH]; intros m; [reflexivity|].
  cbn [find_mounts_for map process_records statfs_record]. unfold bind.
  destruct (process_mount false _ _ _ _ m); try reflexivity. apply IH.
Qed.

Lemma present_defined (on_linux : bool) (a : args)
  (from to fstype options : string) :
  record_verdict on_linux a (present from to fstype options) <> Undefined.
Proof.
  unfold record_verdict, present.
  destruct (first_verdict_cases
              (predicate_checks on_linux a (Some from) (Some to)
                 (Some fstype) (Some options)))
    as [[E H]|[(c & E & H)|[E H]]]; rewrite E; try discriminate.
  exfalso. unfold predicate_checks in H. simpl in H.
  repeat (destruct H as [H|H];
          [ first [ apply platform_artifact_defined in H
                  | apply include_check_defined in H
                  | apply exclude_check_defined in H
                  | apply targets_check_defined in H ]; exact H | ]).
  contradiction.
Qed.

Lemma null_options_defined (on_linux : bool) (a : args)
  (from to fstype : string) :
  options_regex a = None -> skip_options_regex a = None ->
  record_verdict on_linux a (Some from, Some to, Some fstype, None)
  <> Undefined.
Proof.
  intros Ho Hso. unfold record_verdict.
  destruct (first_verdict_cases
              (predicate_checks on_linux a (Some from) (Some to)
                 (Some fstype) None))
    as [[E H]|[(c & E & H)|[E H]]]; rewrite E; try discriminate.
  exfalso. unfold predicate_checks in H. rewrite Ho, Hso in H.
  simpl in H.
  repeat (destruct H as [H|H];
          [ first [ apply platform_artifact_defined in H
                  | apply include_check_defined in H
                  | apply exclude_check_defined in H
                  | apply targets_check_defined in H
                  | discriminate H ]; try exact H | ]).
  contradiction.
Qed.

(** With no options regex configured no entry meets a [NULL] field in
    a check: [find_mounts] returns the fold of the accumulator. *)
Lemma find_mounts_bsd_list (mnt : statfs) (mnts : list statfs) (a : args) :
  options_regex a = None -> skip_options_regex a = None ->
  exists m1,
    find_mounts (bsd (mnt :: mnts)) (initial_mem a)
    = Ret (fold_left rc_strlist_addsortc
             (accepted_values false a (map statfs_record (mnt :: mnts)))
             [])
          m1.
Proof.
  intros Ho Hso.
  destruct (process_records_defined false (map statfs_record (mnt :: mnts))
              (with_list [] (initial_mem a)))
    as (m' & Hrun & Hl & Ha & Hout).
  { intros r Hin. apply in_map_iff in Hin. destruct Hin as (e & <- & _).
    unfold statfs_record.
    destruct (optnames_for _ _ _) as [o|];
      [apply present_defined|now apply null_options_defined]. }
  exists m'.
  unfold find_mounts, find_mounts_bsd, bind, set_list, get_list.
  change (mkmem (m_errno (initial_mem a)) (m_args (initial_mem a)) []
            (m_stdout (initial_mem a)))
    with (with_list [] (initial_mem a)).
  rewrite find_mounts_for_records, Hrun, Hl. reflexivity.
Qed.

(** X2: In the system-call realization, when no options regex is
    configured, [find_mounts] returns for every non-empty list of mount
    entries.  The list it returns is what the accumulator makes of the
    selected fields of the accepted entries, taken in enumeration
    order: a value is in the list exactly when an entry that passes
    every check selects it. *)
Theorem find_mounts_bsd_accumulates (mnt : statfs) (mnts : list statfs)
  (a : args) :
  options_regex a = None -> skip_options_regex a = None ->
  exists m1,
    find_mounts (bsd (mnt :: mnts)) (initial_mem a)
    = Ret (fold_left rc_strlist_addsortc
             (accepted_values false a (map statfs_record (mnt :: mnts)))
             [])
          m1
    /\ forall v,
         In v (fold_left rc_strlist_addsortc
                 (accepted_values false a (map statfs_record (mnt :: mnts)))
                 [])
         <-> exists e,
               In e (mnt :: mnts)
               /\ In v (record_value false a (statfs_record e)).
Proof.
  intros Ho Hso.
  destruct (find_mounts_bsd_list mnt mnts a Ho Hso) as (m1 & H1).
  exists m1. split; [exact H1|].
  intros v. rewrite fold_addsortc_In. unfold accepted_values.
  rewrite in_flat_map. split.
  - intros [[]|(r & Hin & Hv)].
    apply in_map_iff in Hin. destruct Hin as (e & <- & He). eauto.
  - intros (e & He & Hv). right. exists (statfs_record e).
    split; [now apply in_map|exact Hv].
Qed.

Lemma proc_line_split (l : proc_line) :
  proc_line_ok l ->
  line_text (proc_line_text l) = true
  /\ split_fields (proc_line_text l ++ nl)
     = (Some (pl_from l), Some (pl_to l), Some (pl_fst l),
        Some (pl_opts l)).
Proof.
  intros (H1 & H2 & H3 & H4 & H5 & _). unfold proc_line_text, line5. split.
  - auto 12 using line_text_space, is_field_line_text.
  - rewrite !string_app_assoc. now apply split_fields_more.
Qed.

Lemma proc_table_while (ls : list proc_line) (fuel : nat) (m : mem) :
  Forall proc_line_ok ls -> (length ls <= fuel)%nat ->
  find_mounts_while fuel (proc_table ls) m
  = process_records true (map proc_line_record ls) m.
Proof.
  revert fuel m. induction ls as [|l ls IH]; intros fuel m Hok Hfuel.
  - apply find_mounts_while_end.
  - inversion Hok as [|? ? Hl Hls]; subst.
    destruct fuel as [|fuel]; [simpl in Hfuel; lia|].
    destruct (proc_line_split l Hl) as [Ht Hs].
    cbn [proc_table map process_records proc_line_record present].
    rewrite (find_mounts_while_line fuel _ _ m _ _ _ _ Ht
               (proj2 (proj2 (proj2 (proj2 (proj2 Hl))))) Hs).
    unfold bind.
    destruct (process_mount true _ _ _ _ m); try reflexivity.
    apply IH; [assumption|simpl in Hfuel; lia].
Qed.

Lemma proc_table_length (ls : list proc_line) :
  (length ls <= String.length (proc_table ls))%nat.
Proof.
  induction ls as [|l ls IH]; simpl; [lia|].
  rewrite string_length_app. simpl. lia.
Qed.

(** X3: In the table-file realization, on a table whose lines all have
    four fields and more text, [find_mounts] returns, and every line
    reaches [process_mount] with its first four fields, the options
    without the newline.  The list returned is what the accumulator
    makes of the selected fields of the accepted lines, in the order of
    the table: a value is in the list exactly when a line that passes
    every check selects it. *)
Theorem find_mounts_linux_accumulates (ls : list proc_line) (a : args) :
  Forall proc_line_ok ls ->
  exists m1,
    find_mounts (linux (Some (proc_table ls))) (initial_mem a)
    = Ret (fold_left rc_strlist_addsortc
             (accepted_values true a (map proc_line_record ls)) [])
          m1
    /\ forall v,
         In v (fold_left rc_strlist_addsortc
                 (accepted_values true a (map proc_line_record ls)) [])
         <-> exists l,
               In l ls /\ In v (record_value true a (proc_line_record l)).
Proof.
  intros Hok.
  destruct (process_records_defined true (map proc_line_record ls)
              (with_list [] (initial_mem a)))
    as (m' & Hrun & Hl & Ha & Hout).
  { intros r Hin. apply in_map_iff in Hin. destruct Hin as (l & <- & _).
    apply present_defined. }
  exists m'. split.
  - unfold find_mounts, find_mounts_linux, bind, set_list, get_list.
    change (mkmem (m_errno (initial_mem a)) (m_args (initial_mem a)) []
              (m_stdout (initial_mem a)))
      with (with_list [] (initial_mem a)).
    rewrite (proc_table_while ls _ _ Hok (proc_table_length ls)).
    rewrite Hrun, Hl. reflexivity.
  - intros v. rewrite fold_addsortc_In. unfold accepted_values.
    rewrite in_flat_map. split.
    + intros [[]|(r & Hin & Hv)].
      apply in_map_iff in Hin. destruct Hin as (l & <- & Hl'). eauto.
    + intros (l & Hl' & Hv). right. exists (proc_line_record l).
      split; [now apply in_map|exact Hv].
Qed.

(** ** The options string of the system-call realization *)

Lemma land_clear_disjoint (flags o o' : Z) :
  Z.land o o' = 0 ->
  Z.land (Z.land flags (Z.lnot o)) o' = Z.land flags o'.
Proof.
  intros H. apply Z.bits_inj'. intros n Hn.
  rewrite !Z.land_spec, Z.lnot_spec by assumption.
  assert (Hb : Z.testbit o n && Z.testbit o' n = false).
  { rewrite <- Z.land_spec, H. apply Z.bits_0. }
  destruct (Z.testbit flags n), (Z.testbit o n), (Z.testbit o' n);
    simpl in *; congruence.
Qed.

Lemma named_flags_zero (table : list opt) : named_flags table 0 = [].
Proof.
  induction table as [|e table IH]; [reflexivity|].
  unfold named_flags in *. cbn [filter]. rewrite Z.land_0_l. exact IH.
Qed.

Lemma named_flags_clear (table : list opt) (flags o : Z) :
  Forall (fun y => Z.land o (o_opt y) = 0) table ->
  named_flags table (Z.land flags (Z.lnot o)) = named_flags table flags.
Proof.
  unfold named_flags. induction 1 as [|e table He Ht IH]; [reflexivity|].
  cbn [filter]. rewrite (land_clear_disjoint flags o (o_opt e) He), IH.
  reflexivity.
Qed.

Lemma named_flags_cons (e : opt) (table : list opt) (flags : Z) :
  named_flags (e :: table) flags
  = if negb (Z.land flags (o_opt e) =? 0)
    then e :: named_flags table flags
    else named_flags table flags.
Proof. reflexivity. Qed.

Lemma concat_comma_head (s n : string) (ns : list string) :
  String.concat "," ((s ++ "," ++ n) :: ns)
  = s ++ "," ++ String.concat "," (n :: ns).
Proof.
  destruct ns as [|y ns]; [reflexivity|].
  cbn [String.concat]. now rewrite !string_app_assoc.
Qed.

Lemma optnames_for_names (table : list opt) (flags : Z) (options : char_p) :
  distinct_flags table ->
  optnames_for table flags options
  = match options, map o_name (named_flags table flags) with
    | _, [] => options
    | None, names => comma_joined names
    | Some s, names => Some (String.concat "," (s :: names))
    end.
Proof.
  intros [Hnz Hdis]. revert flags options.
  induction table as [|e table IH]; intros flags options.
  - destruct options; reflexivity.
  - inversion Hnz as [|? ? He Hnz']; subst.
    inversion Hdis as [|? ? Hd Hdis']; subst.
    cbn [optnames_for].
    destruct (Z.eqb_spec flags 0) as [->|Hf]; cbn [orb].
    { rewrite named_flags_zero. destruct options; reflexivity. }
    destruct (Z.eqb_spec (o_opt e) 0) as [H0|_]; [contradiction|].
    rewrite (IH Hnz' Hdis'), (named_flags_clear _ _ _ Hd).
    rewrite named_flags_cons.
    destruct (Z.land flags (o_opt e) =? 0); cbn [negb map]; [reflexivity|].
    destruct options as [s|];
      destruct (map o_name (named_flags table flags)) as [|n ns] eqn:En;
      try reflexivity.
    rewrite concat_comma_head. reflexivity.
Qed.

(** X4: For a flag-name table whose flags are not 0 and share no bit,
    the options string [find_mounts] builds for a flag word is the
    names of the entries the word meets, in table order, joined with
    commas; it is [NULL] when the word meets no entry. *)
Theorem optnames_for_joined (table : list opt) (flags : Z) :
  distinct_flags table ->
  optnames_for table flags None
  = comma_joined (map o_name (named_flags table flags)).
Proof.
  intros H. rewrite (optnames_for_names table flags None H).
  destruct (map o_name (named_flags table flags)); reflexivity.
Qed.

(** ** Lines by their number of spaces *)

Lemma spaces_app (a b : string) :
  spaces (a ++ b) = (spaces a + spaces b)%nat.
Proof.
  induction a as [|c a IH]; [reflexivity|].
  simpl. destruct (Ascii.eqb c " "); simpl; now rewrite IH.
Qed.

Lemma strsep_scan_spaces (s : string) :
  match strsep_scan " " s with
  | (_, None) => spaces s = O
  | (_, Some r) => spaces s = S (spaces r)
  end.
Proof.
  induction s as [|c s IH]; [reflexivity|].
  cbn [strsep_scan is_delim spaces]. rewrite orb_false_r.
  destruct (Ascii.eqb c " "); [reflexivity|].
  destruct (strsep_scan " " s) as [tok [r|]]; exact IH.
Qed.

(** The fields of a line with fewer than two spaces: no [fst]. *)
Lemma split_fields_short (buffer : string) :
  (spaces (c_str buffer) < 2)%nat ->
  exists from to opts, split_fields buffer = (Some from, to, None, opts).
Proof.
  intros H. unfold split_fields. cbn [strsep].
  pose proof (strsep_scan_spaces (c_str buffer)) as H1.
  destruct (strsep_scan " " (c_str buffer)) as [from [p1|]].
  - cbn [strsep].
    pose proof (strsep_scan_spaces p1) as H2.
    destruct (strsep_scan " " p1) as [to [p2|]]; [lia|].
    cbn [strsep]. eauto.
  - cbn [strsep]. eauto.
Qed.

(** The fields of a line with three spaces or more: none is [NULL]. *)
Lemma split_fields_long (buffer : string) :
  (3 <= spaces (c_str buffer))%nat ->
  exists from to fst opts,
    split_fields buffer = (Some from, Some to, Some fst, Some opts).
Proof.
  intros H. unfold split_fields. cbn [strsep].
  pose proof (strsep_scan_spaces (c_str buffer)) as H1.
  destruct (strsep_scan " " (c_str buffer)) as [from [p1|]]; [|lia].
  cbn [strsep].
  pose proof (strsep_scan_spaces p1) as H2.
  destruct (strsep_scan " " p1) as [to [p2|]]; [|lia].
  cbn [strsep].
  pose proof (strsep_scan_spaces p2) as H3.
  destruct (strsep_scan " " p2) as [fst [p3|]]; [|lia].
  cbn [strsep].
  destruct (strsep_scan " " p3) as [opts p4]. eauto.
Qed.

Lemma spaces_line (text : string) : spaces (text ++ nl) = spaces text.
Proof. rewrite spaces_app. simpl. lia. Qed.

(** X5: In the table-file realization a line with fewer than two
    spaces, that is with fewer than three fields, makes [process_mount]
    pass a [NULL] filesystem type to [strcmp]: whatever the
    configuration, the loop faults at that line, and so does
    [mountinfo] when the line is the first of the table. *)
Theorem short_line_faults (text rest : string) (fuel : nat) (m : mem)
  (a : args) (pr spr : option regex_t) (quiet : bool) :
  line_text text = true -> fits_buffer text ->
  (spaces text < 2)%nat ->
  find_mounts_while (S fuel) (text ++ nl ++ rest) m = Fault
  /\ mountinfo (linux (Some (text ++ nl ++ rest))) a pr spr quiet = Fault.
Proof.
  intros Ht Hf Hs.
  assert (Hstep : forall fuel' m',
            find_mounts_while (S fuel') (text ++ nl ++ rest) m' = Fault).
  { intros fuel' m'.
    destruct (split_fields_short (text ++ nl)) as (from & to & opts & Hsp).
    { rewrite (c_str_line _ Ht), spaces_line. exact Hs. }
    rewrite (find_mounts_while_line fuel' text rest m' _ _ _ _ Ht Hf Hsp).
    unfold bind. rewrite process_mount_eq. reflexivity. }
  split; [apply Hstep|].
  unfold mountinfo, find_mounts, find_mounts_linux.
  rewrite string_length_app. cbn [String.length nl append].
  rewrite Nat.add_succ_r.
  unfold bind at 1. unfold bind at 1. unfold set_list at 1.
  unfold bind at 1.
  change (String "010" rest) with (nl ++ rest).
  rewrite Hstep. reflexivity.
Qed.

Lemma process_mount_present (on_linux : bool)
  (from to fstype options : string) (m : mem) :
  exists r m',
    process_mount on_linux (Some from) (Some to) (Some fstype)
      (Some options) m
    = Ret r m'.
Proof.
  destruct (process_mount_outcome on_linux (Some from) (Some to)
              (Some fstype) (Some options) m) as [H|H]; [|exact H].
  exfalso. rewrite process_mount_eq in H. unfold predicate_set in H.
  pose proof (present_defined on_linux (m_args m) from to fstype options)
    as Hd.
  unfold record_verdict, present in Hd.
  destruct (first_verdict _); try congruence.
  destruct (select_field _ _ _ _ _); discriminate H.
Qed.

(** X6: In the table-file realization a line with three spaces or more
    never ends the enumeration, whatever the configuration and whatever
    lies between the spaces: [process_mount] returns, the loop goes on
    with the rest of the table, and the configuration and standard
    output are as before. *)
Theorem long_line_continues (text rest : string) (fuel : nat) (m : mem) :
  line_text text = true -> fits_buffer text ->
  (3 <= spaces text)%nat ->
  exists m',
    find_mounts_while (S fuel) (text ++ nl ++ rest) m
    = find_mounts_while fuel rest m'
    /\ m_args m' = m_args m
    /\ m_stdout m' = m_stdout m
    /\ incl (m_list m) (m_list m').
Proof.
  intros Ht Hf Hs.
  destruct (split_fields_long (text ++ nl))
    as (from & to & fst & opts & Hsp).
  { rewrite (c_str_line _ Ht), spaces_line. exact Hs. }
  destruct (process_mount_present true from to fst opts m)
    as (r & m' & Hp).
  exists m'.
  rewrite (find_mounts_while_line fuel text rest m _ _ _ _ Ht Hf Hsp).
  unfold bind. rewrite Hp.
  apply process_mount_preserved in Hp.
  destruct Hp as (Ha & Ho & Hi & _). auto.
Qed.

(** ** The option loops *)

Section FurtherOptions.

Variable regcomp : string -> option regex_t.
Variable case_RC_COMMON_GETOPT : ascii -> option Z.

Lemma compiled_last_cons (c opt : ascii) (optarg : string)
  (opts : list (ascii * string)) (cur : option regex_t) :
  compiled_last regcomp c ((opt, optarg) :: opts) cur
  = compiled_last regcomp c opts
      (if Ascii.eqb opt c then regcomp optarg else cur).
Proof.
  unfold compiled_last. cbn [last_optarg].
  destruct (last_optarg c opts); [reflexivity|].
  destruct (Ascii.eqb opt c); reflexivity.
Qed.

Lemma selected_last_cons (opt : ascii) (optarg : string)
  (opts : list (ascii * string)) (cur : mount_type) :
  selected_last ((opt, optarg) :: opts) cur
  = selected_last opts
      (if existsb (Ascii.eqb opt) select_options then selected_by opt
       else cur).
Proof.
  unfold selected_last. cbn [last_of].
  destruct (last_of select_options opts); [reflexivity|].
  destruct (existsb (Ascii.eqb opt) select_options); reflexivity.
Qed.

Lemma applet_option_cases (opt : ascii) :
  applet_option opt = true ->
  In opt (regex_options ++ select_options).
Proof.
  unfold applet_option. intros H. apply existsb_exists in H.
  destruct H as (c & Hin & Heq). apply Ascii.eqb_eq in Heq. now subst.
Qed.

(** The locals after the option loop, from any locals before it. *)
Lemma mountinfo_getopt_good (opts : list (ascii * string)) (st : locals)
  (m : mem) :
  good_options regcomp opts ->
  exists st',
    mountinfo_getopt regcomp case_RC_COMMON_GETOPT opts st m = Ret st' m
    /\ fstype_regex (l_args st')
       = compiled_last regcomp "f" opts (fstype_regex (l_args st))
    /\ skip_fstype_regex (l_args st')
       = compiled_last regcomp "F" opts (skip_fstype_regex (l_args st))
    /\ node_regex (l_args st')
       = compiled_last regcomp "n" opts (node_regex (l_args st))
    /\ skip_node_regex (l_args st')
       = compiled_last regcomp "N" opts (skip_node_regex (l_args st))
    /\ options_regex (l_args st')
       = compiled_last regcomp "o" opts (options_regex (l_args st))
    /\ skip_options_regex (l_args st')
       = compiled_last regcomp "O" opts (skip_options_regex (l_args st))
    /\ l_point_regex st'
       = compiled_last regcomp "p" opts (l_point_regex st)
    /\ l_skip_point_regex st'
       = compiled_last regcomp "P" opts (l_skip_point_regex st)
    /\ args_mount_type (l_args st')
       = selected_last opts (args_mount_type (l_args st))
    /\ mounts (l_args st') = mounts (l_args st).
Proof.
  intros Hgood. revert st.
  induction Hgood as [|[opt optarg] opts [Ha Hr] Hgood IH]; intros st.
  - exists st. repeat split.
  - cbn [mountinfo_getopt]. unfold bind.
    rewrite !compiled_last_cons, selected_last_cons.
    apply applet_option_cases in Ha. simpl in Ha.
    repeat (destruct Ha as [<-|Ha];
      [ first
          [ (* a regex option *)
            specialize (Hr eq_refl);
            unfold mountinfo_switch; cbn [Ascii.eqb Bool.eqb existsb
              select_options orb];
            unfold bind, get_regex;
            destruct (regcomp optarg) as [reg|] eqn:Ereg; [|congruence];
            unfold ret at 1 2;
            match goal with
            | |- context [mountinfo_getopt _ _ _ ?st1 _] =>
                destruct (IH st1) as (st' & Hrun & Hrest)
            end;
            exists st'; split; [exact Hrun|exact Hrest]
          | (* a selection option *)
            unfold mountinfo_switch; cbn [Ascii.eqb Bool.eqb existsb
              select_options orb];
            unfold ret at 1;
            match goal with
            | |- context [mountinfo_getopt _ _ _ ?st1 _] =>
                destruct (IH st1) as (st' & Hrun & Hrest)
            end;
            exists st'; split; [exact Hrun|exact Hrest] ]
      | ]).
    contradiction.
Qed.

Lemma mountinfo_getopt_app (pre post : list (ascii * string)) (st : locals)
  (m : mem) :
  mountinfo_getopt regcomp case_RC_COMMON_GETOPT (pre ++ post) st m
  = (st' <- mountinfo_getopt regcomp case_RC_COMMON_GETOPT pre st ;;
     mountinfo_getopt regcomp case_RC_COMMON_GETOPT post st') m.
Proof.
  revert st m. induction pre as [|[opt optarg] pre IH]; intros st m.
  - reflexivity.
  - cbn [app mountinfo_getopt]. unfold bind.
    destruct (mountinfo_switch _ _ _ _ _ m); try reflexivity.
    rewrite IH. reflexivity.
Qed.

Lemma mountinfo_switch_bad_regex (opt : ascii) (optarg : string)
  (st : locals) (m : mem) :
  regex_option opt = true -> regcomp optarg = None ->
  mountinfo_switch regcomp case_RC_COMMON_GETOPT opt optarg st m
  = Exit EXIT_FAILURE m.
Proof.
  intros Hopt Hbad. unfold regex_option in Hopt.
  apply existsb_exists in Hopt. destruct Hopt as (c & Hin & Heq).
  apply Ascii.eqb_eq in Heq. subst c. simpl in Hin.
  repeat (destruct Hin as [<-|Hin];
    [ unfold mountinfo_switch; cbn [Ascii.eqb Bool.eqb];
      unfold bind, get_regex; rewrite Hbad; reflexivity | ]).
  contradiction.
Qed.

Lemma mountinfo_operands_absolute (operands : list string) (st : locals)
  (m : mem) :
  Forall (fun arg => absolute arg = true) operands ->
  mountinfo_operands operands st m
  = Ret (with_args
           (set_mounts (mounts (l_args st) ++ operands)%list (l_args st))
           st)
        m.
Proof.
  intros Hall. revert st.
  induction Hall as [|arg operands Harg Hall IH]; intros st.
  - cbn [mountinfo_operands]. rewrite app_nil_r.
    destruct st as [[]]; reflexivity.
  - cbn [mountinfo_operands]. rewrite Harg. cbn [negb].
    rewrite IH. unfold rc_strlist_add, with_args, set_mounts.
    cbn [l_args mounts l_point_regex l_skip_point_regex node_regex
         skip_node_regex fstype_regex skip_fstype_regex options_regex
         skip_options_regex args_mount_type].
    rewrite <- app_assoc. reflexivity.
Qed.

Lemma mountinfo_operands_relative (operands : list string) (st : locals)
  (m : mem) :
  Exists (fun arg => absolute arg = false) operands ->
  mountinfo_operands operands st m = Exit EXIT_FAILURE m.
Proof.
  intros Hex. revert st.
  induction Hex as [arg operands Harg|arg operands Hex IH]; intros st;
    cbn [mountinfo_operands].
  - rewrite Harg. reflexivity.
  - destruct (absolute arg); [apply IH|reflexivity].
Qed.

(** X7: When every option is one of the applet's own and every pattern
    compiles, and every positional argument starts with a slash, the
    applet runs the pipeline with this configuration: each regex is the
    pattern of the last occurrence of its option, compiled, and is unset
    when the option does not occur; the selected field is that of the
    last of [-i], [-s], [-t], the mount point when none occurs; the
    targets are the positional arguments. *)
Theorem mountinfo_main_config (opts : list (ascii * string))
  (operands : list string) (o : os) (quiet : bool) :
  good_options regcomp opts ->
  Forall (fun arg => absolute arg = true) operands ->
  mountinfo_main regcomp case_RC_COMMON_GETOPT opts operands o quiet
  = mountinfo o
      (mkargs
         (compiled_last regcomp "n" opts None)
         (compiled_last regcomp "N" opts None)
         (compiled_last regcomp "f" opts None)
         (compiled_last regcomp "F" opts None)
         (compiled_last regcomp "o" opts None)
         (compiled_last regcomp "O" opts None)
         operands
         (selected_last opts mount_to))
      (compiled_last regcomp "p" opts None)
      (compiled_last regcomp "P" opts None)
      quiet.
Proof.
  intros Hgood Habs. unfold mountinfo_main, bind.
  destruct (mountinfo_getopt_good opts locals_init
              (initial_mem (l_args locals_init)) Hgood)
    as (st & Hrun & Hf & HF & Hn & HN & Ho & HO & Hp & HP & Ht & Hm).
  rewrite Hrun, (mountinfo_operands_absolute operands st _ Habs).
  unfold with_args, set_mounts.
  cbn [l_args l_point_regex l_skip_point_regex].
  rewrite Hf, HF, Hn, HN, Ho, HO, Hp, HP, Ht, Hm. reflexivity.
Qed.

(** X8: A pattern that does not compile is fatal: when the options
    before it are good, the applet exits with [EXIT_FAILURE] at that
    option, whatever follows it on the command line and whatever the
    mount table holds, and standard output stays empty. *)
Theorem invalid_regex_fatal (pre post : list (ascii * string))
  (opt : ascii) (optarg : string) (operands : list string) (o : os)
  (quiet : bool) :
  good_options regcomp pre ->
  regex_option opt = true -> regcomp optarg = None ->
  mountinfo_main regcomp case_RC_COMMON_GETOPT
    (pre ++ (opt, optarg) :: post) operands o quiet
  = Exit EXIT_FAILURE (initial_mem (l_args locals_init)).
Proof.
  intros Hgood Hopt Hbad. unfold mountinfo_main. unfold bind at 1.
  rewrite mountinfo_getopt_app. unfold bind at 1.
  destruct (mountinfo_getopt_good pre locals_init
              (initial_mem (l_args locals_init)) Hgood)
    as (st & Hrun & _).
  rewrite Hrun. cbn [mountinfo_getopt]. unfold bind at 1.
  rewrite (mountinfo_switch_bad_regex opt optarg st _ Hopt Hbad).
  reflexivity.
Qed.

(** X9: A positional argument that does not start with a slash, the
    empty argument among them, is fatal: after good options the applet
    exits with [EXIT_FAILURE] without reading the mount table, and
    standard output stays empty. *)
Theorem relative_operand_fatal (opts : list (ascii * string))
  (operands : list string) (o : os) (quiet : bool) :
  good_options regcomp opts ->
  Exists (fun arg => absolute arg = false) operands ->
  mountinfo_main regcomp case_RC_COMMON_GETOPT opts operands o quiet
  = Exit EXIT_FAILURE (initial_mem (l_args locals_init)).
Proof.
  intros Hgood Hrel. unfold mountinfo_main, bind.
  destruct (mountinfo_getopt_good opts locals_init
              (initial_mem (l_args locals_init)) Hgood)
    as (st & Hrun & _).
  rewrite Hrun, (mountinfo_operands_relative operands st _ Hrel).
  reflexivity.
Qed.

End FurtherOptions.

(** ** The order of the mount table *)

Lemma ascending_ext (l l' : strlist) :
  ascending l -> ascending l' ->
  (forall v, In v l <-> In v l') ->
  l = l'.
Proof.
  unfold ascending. intros Hl. revert l'.
  induction Hl as [|x l Hs IH Hx]; intros l' Hl' Hin.
  - destruct l' as [|y l']; [reflexivity|].
    exfalso. apply (Hin y). now left.
  - destruct Hl' as [|y l' Hs' Hy].
    { exfalso. apply (Hin x). now left. }
    rewrite Forall_forall in Hx, Hy.
    assert (Exy : x = y).
    { destruct (proj1 (Hin x) (or_introl eq_refl)) as [E|Hxl'];
        [now subst|].
      destruct (proj2 (Hin y) (or_introl eq_refl)) as [E|Hyl];
        [now subst|].
      exfalso. apply (str_lt_irrefl x).
      eapply str_lt_trans; [apply Hx, Hyl|apply Hy, Hxl']. }
    subst y. f_equal. apply IH; [assumption|].
    intros v. split; intros Hv.
    + destruct (proj1 (Hin v) (or_intror Hv)) as [E|H]; [|exact H].
      subst v. exfalso. exact (str_lt_irrefl x (Hx x Hv)).
    + destruct (proj2 (Hin v) (or_intror Hv)) as [E|H]; [|exact H].
      subst v. exfalso. exact (str_lt_irrefl x (Hy x Hv)).
Qed.

Lemma fold_addsortc_ascending (vs : list string) (l : strlist) :
  ascending l -> ascending (fold_left rc_strlist_addsortc vs l).
Proof.
  revert l. induction vs as [|v vs IH]; intros l Hl; simpl; [exact Hl|].
  apply IH. now apply rc_strlist_addsortc_ascending.
Qed.

Lemma fold_addsortc_permutation (vs vs' : list string) :
  Permutation vs vs' ->
  fold_left rc_strlist_addsortc vs []
  = fold_left rc_strlist_addsortc vs' [].
Proof.
  intros Hp.
  apply ascending_ext; try (apply fold_addsortc_ascending; constructor).
  intros v. rewrite !fold_addsortc_In. split; intros [[]|H]; right.
  - eapply Permutation_in; eassumption.
  - eapply Permutation_in; [apply Permutation_sym|]; eassumption.
Qed.

(** X10: In the system-call realization with no options regex
    configured, and with [rc_strlist_addsortc] as the specification
    describes it, the order in which [getmntinfo] reports the mount
    entries does not matter: the same entries in another order give the
    same list, the same standard output and the same exit status. *)
Theorem mount_order_irrelevant (mnts mnts' : list statfs) (a : args)
  (pr spr : option regex_t) (quiet : bool) :
  Permutation mnts mnts' -> mnts <> [] ->
  options_regex a = None -> skip_options_regex a = None ->
  exists nodes m1 m1' st m m',
    find_mounts (bsd mnts) (initial_mem a) = Ret nodes m1
    /\ find_mounts (bsd mnts') (initial_mem a) = Ret nodes m1'
    /\ mountinfo (bsd mnts) a pr spr quiet = Exit st m
    /\ mountinfo (bsd mnts') a pr spr quiet = Exit st m'
    /\ m_stdout m = m_stdout m'.
Proof.
  intros Hp Hne Ho Hso.
  destruct mnts as [|e mnts]; [congruence|].
  destruct mnts' as [|e' mnts'].
  { apply Permutation_sym, Permutation_nil in Hp. discriminate Hp. }
  destruct (find_mounts_bsd_list e mnts a Ho Hso) as (m1 & H1).
  destruct (find_mounts_bsd_list e' mnts' a Ho Hso) as (m1' & H1').
  rewrite <- (fold_addsortc_permutation
                (accepted_values false a (map statfs_record (e :: mnts)))
                (accepted_values false a (map statfs_record (e' :: mnts'))))
    in H1'.
  2:{ unfold accepted_values. apply Permutation_flat_map.
      now apply Permutation_map. }
  do 6 eexists.
  split; [exact H1|]. split; [exact H1'|].
  rewrite (mountinfo_run _ a pr spr quiet _ _ H1).
  rewrite (mountinfo_run _ a pr spr quiet _ _ H1').
  split; [reflexivity|]. split; reflexivity.
Qed.

End Further.

(** * Closed instances of the further properties *)

(** A source outside [/dev] with the node regex [^/dev]: the result is
    1. *)
Lemma process_mount_result_witness :
  process_mount true (Some "tmpfs") (Some "/run") (Some "tmpfs")
    (Some "rw") (initial_mem dev_nodes)
  = Ret 1 (with_errno ENOENT (initial_mem dev_nodes))
  /\ (1 = 1 <->
      platform_artifact true (Some "tmpfs") = Pass
      /\ node_rejects (m_args (initial_mem dev_nodes)) "tmpfs" = true).
Proof.
  assert (H : process_mount true (Some "tmpfs") (Some "/run")
                (Some "tmpfs") (Some "rw") (initial_mem dev_nodes)
              = Ret 1 (with_errno ENOENT (initial_mem dev_nodes)))
    by reflexivity.
  split; [exact H|].
  exact (proj2 (proj2 (proj2
           (process_mount_result true "tmpfs" (Some "/run") (Some "tmpfs")
              (Some "rw") _ _ 1 H)))).
Defined.

(** Two entries with the options selected: the one with flags gives its
    names, the one without gives nothing. *)
Lemma find_mounts_bsd_accumulates_witness :
  options_regex (no_filters mount_options) = None
  /\ skip_options_regex (no_filters mount_options) = None
  /\ exists m1,
       find_mounts (hdr := sample_mount_h) (bsd sample_entries)
         (initial_mem (no_filters mount_options))
       = Ret ["local,read-only"] m1.
Proof.
  split; [reflexivity|]. split; [reflexivity|].
  destruct (find_mounts_bsd_accumulates (hdr := sample_mount_h)
              (mkstatfs 0x1001 "/dev/ad0s1a" "/" "ufs")
              [mkstatfs 0 "procfs" "/proc" "procfs"]
              (no_filters mount_options) eq_refl eq_refl)
    as (m1 & H & _).
  exists m1. exact H.
Defined.

(** The scenario table, line by line, with the filesystem type
    selected. *)
Lemma find_mounts_linux_accumulates_witness :
  Forall proc_line_ok scenario_lines
  /\ proc_table scenario_lines = scenario_table
  /\ exists m1,
       find_mounts (hdr := sample_mount_h)
         (linux (Some (proc_table scenario_lines)))
         (initial_mem (no_filters mount_fstype))
       = Ret ["ext4"; "tmpfs"] m1.
Proof.
  assert (Hok : Forall proc_line_ok scenario_lines).
  { repeat constructor; vm_compute; reflexivity. }
  split; [exact Hok|]. split; [reflexivity|].
  destruct (find_mounts_linux_accumulates (hdr := sample_mount_h)
              scenario_lines (no_filters mount_fstype) Hok)
    as (m1 & H & _).
  exists m1. exact H.
Defined.

(** The sample table has distinct flags; the flag word [0x1009] is
    local, nosuid, read-only. *)
Lemma optnames_for_joined_witness :
  distinct_flags (optnames (hdr := sample_mount_h))
  /\ optnames_for (optnames (hdr := sample_mount_h)) 0x1009 None
     = Some "local,nosuid,read-only".
Proof.
  assert (Hd : distinct_flags (optnames (hdr := sample_mount_h))).
  { split.
    - unfold optnames. simpl app. repeat constructor; discriminate.
    - unfold optnames. simpl app. repeat constructor. }
  split; [exact Hd|].
  exact (optnames_for_joined (optnames (hdr := sample_mount_h)) 0x1009 Hd).
Defined.

(** The line [tmpfs /run] has one space. *)
Lemma short_line_faults_witness :
  line_text "tmpfs /run" = true
  /\ fits_buffer "tmpfs /run"
  /\ (spaces "tmpfs /run" < 2)%nat
  /\ mountinfo (hdr := sample_mount_h)
       (linux (Some ("tmpfs /run" ++ nl ++ scenario_table)))
       (no_filters mount_to) None None false
     = Fault.
Proof.
  assert (Hf : fits_buffer "tmpfs /run") by (vm_compute; reflexivity).
  assert (Hs : (spaces "tmpfs /run" < 2)%nat) by (vm_compute; lia).
  split; [reflexivity|]. split; [exact Hf|]. split; [exact Hs|].
  exact (proj2
           (short_line_faults (hdr := sample_mount_h) "tmpfs /run"
              scenario_table 0 (initial_mem (no_filters mount_to))
              (no_filters mount_to) None None false eq_refl Hf Hs)).
Defined.

(** A line with two spaces in a row has an empty field, and three
    spaces in all: the loop goes on. *)
Lemma long_line_continues_witness :
  line_text "none  tmpfs rw" = true
  /\ fits_buffer "none  tmpfs rw"
  /\ (3 <= spaces "none  tmpfs rw")%nat
  /\ exists m',
       find_mounts_while 1 ("none  tmpfs rw" ++ nl ++ EmptyString)
         (initial_mem (no_filters mount_to))
       = find_mounts_while 0 EmptyString m'
       /\ m_args m' = no_filters mount_to.
Proof.
  assert (Hf : fits_buffer "none  tmpfs rw") by (vm_compute; reflexivity).
  assert (Hs : (3 <= spaces "none  tmpfs rw")%nat) by (vm_compute; lia).
  split; [reflexivity|]. split; [exact Hf|]. split; [exact Hs|].
  destruct (long_line_continues "none  tmpfs rw" EmptyString 0
              (initial_mem (no_filters mount_to)) eq_refl Hf Hs)
    as (m' & Hw & Ha & _).
  exists m'. split; [exact Hw|exact Ha].
Defined.

(** [-f '^xfs' -s -f '^ext'] on the scenario table: the second [-f]
    counts, the filesystem type is selected. *)
Lemma mountinfo_main_config_witness :
  good_options sample_regcomp sample_opts
  /\ Forall (fun arg => absolute arg = true) ["/"; "/run"]
  /\ mountinfo_main (hdr := sample_mount_h) sample_regcomp
       sample_common_getopt sample_opts ["/"; "/run"]
       (linux (Some scenario_table)) false
     = mountinfo (hdr := sample_mount_h) (linux (Some scenario_table))
         (mkargs None None (Some (String.prefix "ext")) None None None
            ["/"; "/run"] mount_fstype)
         None None false.
Proof.
  assert (Hg : good_options sample_regcomp sample_opts).
  { repeat constructor; discriminate. }
  assert (Ha : Forall (fun arg => absolute arg = true) ["/"; "/run"])
    by (repeat constructor).
  split; [exact Hg|]. split; [exact Ha|].
  exact (mountinfo_main_config (hdr := sample_mount_h) sample_regcomp
           sample_common_getopt sample_opts ["/"; "/run"]
           (linux (Some scenario_table)) false Hg Ha).
Defined.

(** [-s -f '(' -t]: the pattern does not compile. *)
Lemma invalid_regex_fatal_witness :
  good_options sample_regcomp [("s"%char, EmptyString)]
  /\ regex_option "f" = true
  /\ sample_regcomp "(" = None
  /\ mountinfo_main (hdr := sample_mount_h) sample_regcomp
       sample_common_getopt
       ([("s"%char, EmptyString)]
          ++ ("f"%char, "(") :: [("t"%char, EmptyString)])
       [] (linux (Some scenario_table)) false
     = Exit EXIT_FAILURE (initial_mem (l_args locals_init)).
Proof.
  assert (Hg : good_options sample_regcomp [("s"%char, EmptyString)]).
  { repeat constructor; discriminate. }
  split; [exact Hg|]. split; [reflexivity|]. split; [reflexivity|].
  exact (invalid_regex_fatal (hdr := sample_mount_h) sample_regcomp
           sample_common_getopt [("s"%char, EmptyString)]
           [("t"%char, EmptyString)] "f" "(" []
           (linux (Some scenario_table)) false Hg eq_refl eq_refl).
Defined.

(** The positional arguments [/run] and [data]: the second is not a
    mount point. *)
Lemma relative_operand_fatal_witness :
  good_options sample_regcomp sample_opts
  /\ Exists (fun arg => absolute arg = false) ["/run"; "data"]
  /\ mountinfo_main (hdr := sample_mount_h) sample_regcomp
       sample_common_getopt sample_opts ["/run"; "data"]
       (linux (Some scenario_table)) false
     = Exit EXIT_FAILURE (initial_mem (l_args locals_init)).
Proof.
  assert (Hg : good_options sample_regcomp sample_opts).
  { repeat constructor; discriminate. }
  assert (He : Exists (fun arg => absolute arg = false) ["/run"; "data"]).
  { apply Exists_cons_tl. apply Exists_cons_hd. reflexivity. }
  split; [exact Hg|]. split; [exact He|].
  exact (relative_operand_fatal (hdr := sample_mount_h) sample_regcomp
           sample_common_getopt sample_opts ["/run"; "data"]
           (linux (Some scenario_table)) false Hg He).
Defined.

(** The two sample entries in both orders. *)
Lemma mount_order_irrelevant_witness :
  Permutation sample_entries (rev sample_entries)
  /\ sample_entries <> []
  /\ options_regex (no_filters mount_to) = None
  /\ skip_options_regex (no_filters mount_to) = None
  /\ exists nodes m1 m1',
       find_mounts (hdr := sample_mount_h) (bsd sample_entries)
         (initial_mem (no_filters mount_to)) = Ret nodes m1
       /\ find_mounts (hdr := sample_mount_h) (bsd (rev sample_entries))
            (initial_mem (no_filters mount_to)) = Ret nodes m1'.
Proof.
  assert (Hp : Permutation sample_entries (rev sample_entries))
    by apply Permutation_rev.
  assert (Hne : sample_entries <> []) by discriminate.
  split; [exact Hp|]. split; [exact Hne|].
  split; [reflexivity|]. split; [reflexivity|].
  destruct (mount_order_irrelevant (hdr := sample_mount_h)
              sample_entries (rev sample_entries) (no_filters mount_to)
              None None false Hp Hne eq_refl eq_refl)
    as (nodes & m1 & m1' & _ & _ & _ & H1 & H1' & _).
  exists nodes, m1, m1'. split; [exact H1|exact H1'].
Defined.

(** * Duplicates, from the records to the output *)

Section Duplicates.

Context {hdr : sys_mount_h}.

(** A run of [process_mount] calls that returns has handed the selected
    fields of the accepted records to the accumulator, in order. *)
Lemma process_records_Ret (on_linux : bool) (rs : list record)
  (m m' : mem) (u : unit) :
  process_records on_linux rs m = Ret u m' ->
  m_list m'
  = fold_left rc_strlist_addsortc
      (accepted_values on_linux (m_args m) rs) (m_list m)
  /\ m_args m' = m_args m.
Proof.
  revert m. induction rs as [|[[[from to] fstype] options] rs IH];
    intros m.
  - cbn [process_records]. intros H. inversion H; subst. split; reflexivity.
  - cbn [process_records]. unfold bind.
    rewrite process_mount_eq. unfold predicate_set.
    unfold accepted_values. cbn [flat_map record_value].
    unfold record_verdict.
    destruct (first_verdict _) as [|c|] eqn:E; [| |discriminate].
    + destruct (select_field _ _ _ _ _) as [p|] eqn:Es;
        intros H; apply IH in H; destruct H as [Hl Ha];
        rewrite Hl, Ha; split; reflexivity.
    + intros H. apply IH in H. destruct H as [Hl Ha].
      rewrite Hl, Ha. split; reflexivity.
Qed.

Lemma find_mounts_while_records (fuel : nat) (fp : string) (m : mem) :
  (String.length fp <= fuel)%nat ->
  find_mounts_while fuel fp m
  = process_records true (map split_fields (table_buffers fuel fp)) m.
Proof.
  revert fp m. induction fuel as [|fuel IH]; intros fp m Hlen.
  - destruct fp; [reflexivity|simpl in Hlen; lia].
  - rewrite find_mounts_while_S. cbn [table_buffers].
    destruct (fgets buffer_size fp) as [[buffer fp']|] eqn:Ef;
      [|reflexivity].
    apply fgets_progress in Ef.
    cbn [map process_records].
    destruct (split_fields buffer) as [[[from to] fst] opts].
    unfold bind.
    destruct (process_mount true from to fst opts m); try reflexivity.
    apply IH. lia.
Qed.

(** What [find_mounts] returns, in terms of the records of the table. *)
Lemma find_mounts_records (o : os) (a : args) (nodes : strlist) (m1 : mem) :
  find_mounts o (initial_mem a) = Ret nodes m1 ->
  nodes
  = fold_left rc_strlist_addsortc
      (accepted_values (os_linux o) a (records_of o)) [].
Proof.
  destruct o as [[fp|]|[|mnt mnts]];
    unfold find_mounts, find_mounts_linux, find_mounts_bsd;
    try discriminate;
    unfold bind, set_list, get_list;
    change (mkmem (m_errno (initial_mem a)) (m_args (initial_mem a)) []
              (m_stdout (initial_mem a)))
      with (with_list [] (initial_mem a)).
  - rewrite find_mounts_while_records by lia.
    destruct (process_records true _ _) as [u m2| | |] eqn:E;
      try discriminate.
    intros H. inversion H; subst.
    apply process_records_Ret in E. destruct E as [Hl _]. exact Hl.
  - rewrite find_mounts_for_records.
    destruct (process_records false _ _) as [u m2| | |] eqn:E;
      try discriminate.
    intros H. inversion H; subst.
    apply process_records_Ret in E. destruct E as [Hl _]. exact Hl.
Qed.

(** C4: The accumulated list never holds two equal strings.  For every
    mount table for which [find_mounts] returns, the list has no
    duplicates; a value is in it exactly when some record that passes
    every check selects it, and then it is there exactly once, however
    many records select it; [mountinfo] prints the values that survive
    the point filter one line each, so such a value is on exactly one
    line of standard output. *)
Theorem duplicates_give_one_line (o : os) (a : args)
  (pr spr : option regex_t) (nodes : strlist) (m1 : mem) :
  find_mounts o (initial_mem a) = Ret nodes m1 ->
  NoDup nodes
  /\ (forall v,
        In v nodes
        <-> exists r,
              In r (records_of o) /\ In v (record_value (os_linux o) a r))
  /\ (forall r v,
        In r (records_of o) -> In v (record_value (os_linux o) a r) ->
        count_occ string_dec nodes v = 1%nat)
  /\ exists st m emitted,
       mountinfo o a pr spr false = Exit st m
       /\ m_stdout m = emit_lines emitted
       /\ emitted
          = filter (point_survives pr spr) (rc_strlist_reverse nodes)
       /\ NoDup emitted
       /\ (forall r v,
             In r (records_of o) ->
             In v (record_value (os_linux o) a r) ->
             point_survives pr spr v = true ->
             count_occ string_dec emitted v = 1%nat)
       /\ (forall v,
             ~ In v nodes \/ point_survives pr spr v = false ->
             count_occ string_dec emitted v = 0%nat).
Proof.
  intros H.
  pose proof (find_mounts_Ret _ _ _ _ H) as (_ & _ & _ & Hasc).
  pose proof (find_mounts_records _ _ _ _ H) as Hrec.
  assert (Hnd : NoDup nodes) by now apply ascending_NoDup.
  assert (Hin : forall v,
            In v nodes
            <-> exists r,
                  In r (records_of o)
                  /\ In v (record_value (os_linux o) a r)).
  { intros v. rewrite Hrec at 1. rewrite fold_addsortc_In.
    unfold accepted_values. rewrite in_flat_map. split.
    - intros [[]|Hex]. exact Hex.
    - intros Hex. right. exact Hex. }
  split; [exact Hnd|]. split; [exact Hin|]. split.
  - intros r v Hr Hv. apply NoDup_count_occ'; [exact Hnd|].
    apply Hin. eauto.
  - rewrite (mountinfo_run o a pr spr false nodes m1 H).
    assert (Hnde : NoDup (filter (point_survives pr spr)
                            (rc_strlist_reverse nodes))).
    { apply NoDup_filter. unfold rc_strlist_reverse. now apply NoDup_rev. }
    do 3 eexists. split; [reflexivity|]. split; [reflexivity|].
    split; [reflexivity|]. split; [exact Hnde|]. split.
    + intros r v Hr Hv Hs. apply NoDup_count_occ'; [exact Hnde|].
      apply filter_In. split; [|exact Hs].
      unfold rc_strlist_reverse. rewrite <- in_rev. apply Hin. eauto.
    + intros v Hv. apply count_occ_not_In. intros Hf.
      apply filter_In in Hf. destruct Hf as [Hf Hs].
      unfold rc_strlist_reverse in Hf. rewrite <- in_rev in Hf.
      destruct Hv as [Hv|Hv]; [contradiction|congruence].
Qed.

End Duplicates.

(** * What [process_mount] keeps of a record *)

Lemma regex_nomatch_ptr_verdict (re : option regex_t) (s : ptr) (code : Z)
  (pm : pmem) :
  regex_nomatch_ptr re s pm =
  match include_check re (deref (p_heap pm) s) code with
  | Pass => PRet false pm
  | Reject _ => PRet true pm
  | Undefined => PFault
  end.
Proof.
  destruct re as [preg|]; [|reflexivity].
  unfold regex_nomatch_ptr, regexec_ptr, pbind, load, include_check.
  destruct (deref (p_heap pm) s) as [str|]; [|reflexivity].
  unfold pret. destruct (preg str); reflexivity.
Qed.

Lemma regex_match_ptr_verdict (re : option regex_t) (s : ptr) (code : Z)
  (pm : pmem) :
  regex_match_ptr re s pm =
  match exclude_check re (deref (p_heap pm) s) code with
  | Pass => PRet false pm
  | Reject _ => PRet true pm
  | Undefined => PFault
  end.
Proof.
  destruct re as [preg|]; [|reflexivity].
  unfold regex_match_ptr, regexec_ptr, pbind, load, exclude_check.
  destruct (deref (p_heap pm) s) as [str|]; [|reflexivity].
  unfold pret. destruct (preg str); reflexivity.
Qed.

Lemma mounts_found_ptr_eq (l : strlist) (to : ptr) (t : string)
  (pm : pmem) :
  deref (p_heap pm) to = Some t ->
  mounts_found_ptr l to pm = PRet (existsb (String.eqb t) l) pm.
Proof.
  intros Ht. induction l as [|mnt l IH]; [reflexivity|].
  cbn [mounts_found_ptr existsb].
  unfold strcmp_lit_ptr, pbind, load. rewrite Ht. unfold pret at 1.
  rewrite strcmp_eqb.
  destruct (String.eqb t mnt); [reflexivity|exact IH].
Qed.

Lemma mounts_reject_ptr_verdict (l : strlist) (to : ptr) (pm : pmem) :
  mounts_reject_ptr l to pm =
  match targets_check l (deref (p_heap pm) to) with
  | Pass => PRet false pm
  | Reject _ => PRet true pm
  | Undefined => PFault
  end.
Proof.
  destruct l as [|mnt l]; [reflexivity|].
  unfold mounts_reject_ptr, targets_check, pbind.
  destruct (deref (p_heap pm) to) as [t|] eqn:Ht.
  - rewrite (mounts_found_ptr_eq _ _ t pm Ht).
    destruct (existsb (String.eqb t) (mnt :: l)); reflexivity.
  - cbn [mounts_found_ptr]. unfold strcmp_lit_ptr, pbind, load.
    rewrite Ht. reflexivity.
Qed.

Lemma rootfs_ptr_verdict (on_linux : bool) (fstype : ptr) (pm : pmem) :
  (if on_linux
   then c <~ strcmp_ptr_lit fstype "rootfs" ;; pret (c =? 0)
   else pret false) pm =
  match platform_artifact on_linux (deref (p_heap pm) fstype) with
  | Pass => PRet false pm
  | Reject _ => PRet true pm
  | Undefined => PFault
  end.
Proof.
  destruct on_linux; [|reflexivity].
  unfold platform_artifact, strcmp_ptr_lit, pbind, load.
  destruct (deref (p_heap pm) fstype) as [f|]; [|reflexivity].
  unfold pret. rewrite strcmp_eqb, String.eqb_sym.
  destruct (String.eqb f "rootfs"); reflexivity.
Qed.

Ltac verdict_step_ptr lem code_lem :=
  unfold pbind at 1; rewrite lem;
  cbn [p_args p_heap p_list p_errno p_stdout];
  match goal with
  | |- context [match ?v with Pass => PRet false _ | _ => _ end] =>
      let E := fresh "E" in
      destruct v eqn:E;
      [ clear E
      | apply code_lem in E; subst; reflexivity
      | reflexivity ]
  end.

(** Over pointers too, [process_mount] is the predicate set of the
    specification. *)
Lemma process_mount_ptr_eq (on_linux : bool) (from to fstype options : ptr)
  (pm : pmem) :
  process_mount_ptr on_linux from to fstype options pm =
  predicate_set_ptr on_linux from to fstype options pm.
Proof.
  unfold process_mount_ptr, predicate_set_ptr, predicate_checks.
  unfold pbind at 1. unfold pset_errno at 1.
  unfold pbind at 1. unfold pget_args at 1.
  cbn [p_args p_heap p_list p_errno p_stdout first_verdict].
  verdict_step_ptr rootfs_ptr_verdict platform_artifact_code.
  verdict_step_ptr
    (regex_nomatch_ptr_verdict (node_regex (p_args pm)) from 1)
    include_check_code.
  verdict_step_ptr
    (regex_match_ptr_verdict (skip_node_regex (p_args pm)) from 1)
    exclude_check_code.
  verdict_step_ptr
    (regex_nomatch_ptr_verdict (fstype_regex (p_args pm)) fstype (-1))
    include_check_code.
  verdict_step_ptr
    (regex_match_ptr_verdict (skip_fstype_regex (p_args pm)) fstype (-1))
    exclude_check_code.
  verdict_step_ptr
    (regex_nomatch_ptr_verdict (options_regex (p_args pm)) options (-1))
    include_check_code.
  verdict_step_ptr
    (regex_match_ptr_verdict (skip_options_regex (p_args pm)) options (-1))
    exclude_check_code.
  verdict_step_ptr mounts_reject_ptr_verdict targets_check_code.
  destruct (select_field_ptr _ _ _ _ _); reflexivity.
Qed.

(** ** The list of pointers and the list of values *)

Lemma valid_deref (h : list string) (p : ptr) :
  valid h p -> deref h p = None -> p = None.
Proof.
  destruct p as [q|]; [|reflexivity]. simpl. intros Hq Hn.
  apply nth_error_None in Hn. lia.
Qed.

Lemma select_field_deref (t : mount_type) (h : list string)
  (from to fstype options : ptr) :
  select_field t (deref h from) (deref h to) (deref h fstype)
    (deref h options)
  = deref h (select_field_ptr t from to fstype options).
Proof. destruct t; reflexivity. Qed.

Lemma str_at_app (h : list string) (item : string) (q : addr) :
  (q < length h)%nat -> str_at (h ++ [item]) q = str_at h q.
Proof. intros Hq. unfold str_at. now apply app_nth1. Qed.

Lemma str_at_new (h : list string) (item : string) :
  str_at (h ++ [item]) (length h) = item.
Proof. unfold str_at. apply nth_middle. Qed.

Lemma existsb_str_at (h : list string) (item : string) (l : list addr) :
  existsb (fun x => String.eqb item (str_at h x)) l
  = existsb (String.eqb item) (map (str_at h) l).
Proof.
  induction l as [|x l IH]; [reflexivity|]. simpl. now rewrite IH.
Qed.

Lemma insert_sorted_ptr_In (h : list string) (item : string) (q x : addr)
  (l : list addr) :
  In x (insert_sorted_ptr h item q l) <-> x = q \/ In x l.
Proof.
  induction l as [|y l IH]; simpl.
  - intuition congruence.
  - destruct (strcmp (str_at h y) item <? 0); simpl; rewrite ?IH;
      intuition congruence.
Qed.

Lemma insert_sorted_ptr_values (h : list string) (item : string)
  (l : list addr) :
  Forall (fun q => (q < length h)%nat) l ->
  map (str_at (h ++ [item])) (insert_sorted_ptr h item (length h) l)
  = insert_sorted item (map (str_at h) l).
Proof.
  induction 1 as [|x l Hx Hl IH]; cbn [insert_sorted_ptr insert_sorted map].
  - now rewrite str_at_new.
  - destruct (strcmp (str_at h x) item <? 0); cbn [map].
    + now rewrite IH, str_at_app.
    + rewrite str_at_new, str_at_app by assumption. f_equal. f_equal.
      apply map_ext_in. intros y Hy. apply str_at_app.
      rewrite Forall_forall in Hl. now apply Hl.
Qed.

(** The accumulator over pointers: what it does to the memory. *)
Lemma rc_strlist_addsortc_ptr_eq (p : addr) (item : string) (pm : pmem) :
  nth_error (p_heap pm) p = Some item ->
  exists pm',
    rc_strlist_addsortc_ptr (Some p) pm = PRet tt pm'
    /\ p_errno pm' = p_errno pm
    /\ p_args pm' = p_args pm
    /\ p_stdout pm' = p_stdout pm
    /\ ((p_heap pm' = p_heap pm /\ p_list pm' = p_list pm)
        \/ (p_heap pm' = (p_heap pm ++ [item])%list
            /\ p_list pm'
               = insert_sorted_ptr (p_heap pm) item (length (p_heap pm))
                   (p_list pm)))
    /\ (list_valid pm ->
        map (str_at (p_heap pm')) (p_list pm')
        = rc_strlist_addsortc (map (str_at (p_heap pm)) (p_list pm)) item).
Proof.
  intros Hp. unfold rc_strlist_addsortc_ptr, pbind, load. cbn [deref].
  rewrite Hp. unfold rc_strlist_addsortc. rewrite <- existsb_str_at.
  destruct (existsb _ (p_list pm)); eexists; (split; [reflexivity|]);
    cbn [p_errno p_args p_stdout p_heap p_list]; repeat split; auto.
  intros Hv. now apply insert_sorted_ptr_values.
Qed.

Lemma nth_error_app_old (h : list string) (item : string) (q : addr) :
  (q < length h)%nat -> nth_error (h ++ [item]) q = nth_error h q.
Proof. intros Hq. now apply nth_error_app1. Qed.

Lemma overwrite_length (h : list string) (q : addr) (s : string) :
  length (overwrite h q s) = length h.
Proof.
  revert q. induction h as [|x h IH]; intros [|q]; simpl; auto.
Qed.

Lemma str_at_overwrite (h : list string) (q x : addr) (s : string) :
  x <> q -> str_at (overwrite h q s) x = str_at h x.
Proof.
  unfold str_at. revert q x.
  induction h as [|y h IH]; intros [|q] [|x] Hne; simpl; try reflexivity;
    try congruence.
  apply IH. congruence.
Qed.

Lemma str_at_overwrite_ptr (h : list string) (p : ptr) (x : addr)
  (s : string) :
  Some x <> p -> str_at (overwrite_ptr h p s) x = str_at h x.
Proof.
  destruct p as [q|]; [|reflexivity]. intros Hne.
  apply str_at_overwrite. congruence.
Qed.

Lemma not_held_neq (l : list addr) (p : ptr) (x : addr) :
  not_held l p -> In x l -> Some x <> p.
Proof.
  destruct p as [q|]; [|discriminate]. simpl. intros Hn Hx E.
  injection E as ->. contradiction.
Qed.

(** Entries that are no pointer of the record read the same after the
    record is overwritten. *)
Lemma overwrite_record_values (h : list string)
  (from to fstype options : ptr) (s : string) (l : list addr) :
  not_held l from -> not_held l to -> not_held l fstype ->
  not_held l options ->
  map (str_at (overwrite_record h from to fstype options s)) l
  = map (str_at h) l.
Proof.
  intros H1 H2 H3 H4. apply map_ext_in. intros x Hx.
  unfold overwrite_record.
  rewrite !str_at_overwrite_ptr by (eapply not_held_neq; eassumption).
  reflexivity.
Qed.

Lemma not_held_fresh (h : list string) (l : list addr) (p : ptr)
  (item : string) :
  valid h p -> not_held l p ->
  not_held (insert_sorted_ptr h item (length h) l) p.
Proof.
  destruct p as [q|]; [|trivial]. simpl. intros Hq Hn Hin.
  apply insert_sorted_ptr_In in Hin. destruct Hin as [->|Hin]; [lia|auto].
Qed.

(** C9: Evaluating the predicate set on a record changes neither the
    [struct args] nor the record, and retains no pointer to the record.
    For every record whose fields are [NULL] or point to blocks, and
    every configuration: when [process_mount] returns, the
    configuration and standard output are as before; every block that
    existed, those of the record among them, holds what it held; the
    list holds the entries it held and at most one new one, which
    points to a block made by the call; so no entry of the list points
    into the record, and overwriting the record afterwards changes no
    string of the list.  The call does to the strings what
    [process_mount] of the value embedding does. *)
Theorem process_mount_retains_nothing (on_linux : bool)
  (from to fstype options : ptr) (pm pm' : pmem) (r : Z) (junk : string) :
  valid (p_heap pm) from -> valid (p_heap pm) to ->
  valid (p_heap pm) fstype -> valid (p_heap pm) options ->
  list_valid pm ->
  not_held (p_list pm) from -> not_held (p_list pm) to ->
  not_held (p_list pm) fstype -> not_held (p_list pm) options ->
  process_mount_ptr on_linux from to fstype options pm = PRet r pm' ->
  p_args pm' = p_args pm
  /\ p_stdout pm' = p_stdout pm
  /\ (forall q, (q < length (p_heap pm))%nat ->
        nth_error (p_heap pm') q = nth_error (p_heap pm) q)
  /\ (forall q, In q (p_list pm') ->
        In q (p_list pm) \/ (r = 0 /\ q = length (p_heap pm)))
  /\ (not_held (p_list pm') from /\ not_held (p_list pm') to
      /\ not_held (p_list pm') fstype /\ not_held (p_list pm') options)
  /\ list_valid pm'
  /\ map (str_at (overwrite_record (p_heap pm') from to fstype options junk))
       (p_list pm')
     = map (str_at (p_heap pm')) (p_list pm')
  /\ process_mount on_linux
       (deref (p_heap pm) from) (deref (p_heap pm) to)
       (deref (p_heap pm) fstype) (deref (p_heap pm) options)
       (values_of pm)
     = Ret r (values_of pm').
Proof.
  intros Vf Vt Vy Vo Hlv Nf Nt Ny No Hrun.
  rewrite process_mount_eq. unfold predicate_set.
  rewrite process_mount_ptr_eq in Hrun. unfold predicate_set_ptr in Hrun.
  cbn zeta in Hrun. cbn [values_of m_args m_list m_errno m_stdout].
  destruct (first_verdict _) as [|c|] eqn:E; [| |discriminate].
  - rewrite select_field_deref.
    destruct (select_field_ptr _ _ _ _ _) as [p|] eqn:Es.
    + assert (Vp : valid (p_heap pm) (Some p)).
      { rewrite <- Es.
        destruct (args_mount_type (p_args pm)); assumption. }
      assert (Np : not_held (p_list pm) (Some p)).
      { rewrite <- Es.
        destruct (args_mount_type (p_args pm)); assumption. }
      cbn [deref]. destruct (nth_error (p_heap pm) p) as [item|] eqn:Ep.
      2:{ apply nth_error_None in Ep. simpl in Vp. lia. }
      destruct (rc_strlist_addsortc_ptr_eq p item (pwith_errno 0 pm) Ep)
        as (pm1 & Hadd & He & Ha & Ho & Hcases & Hval).
      unfold pbind in Hrun. rewrite Hadd in Hrun. unfold pret in Hrun.
      inversion Hrun; subst r pm1. clear Hrun.
      cbn [pwith_errno p_errno p_args p_heap p_list p_stdout] in *.
      specialize (Hval Hlv).
      destruct pm' as [e' a' h' l' o'].
      cbn [p_errno p_args p_heap p_list p_stdout] in *. subst e' a' o'.
      unfold with_list, with_errno, list_valid.
      cbn [m_errno m_args m_list m_stdout p_heap p_list].
      rewrite <- Hval.
      destruct Hcases as [[-> ->]|[-> ->]].
      * split; [reflexivity|]. split; [reflexivity|].
        split; [reflexivity|]. split; [auto|].
        split; [tauto|]. split; [exact Hlv|].
        split; [|reflexivity].
        apply overwrite_record_values; assumption.
      * split; [reflexivity|]. split; [reflexivity|].
        split; [intros q Hq; now apply nth_error_app_old|].
        split.
        { intros q Hq. apply insert_sorted_ptr_In in Hq.
          destruct Hq as [->|Hq]; auto. }
        split; [repeat split; now apply not_held_fresh|].
        split.
        { apply Forall_forall. intros q Hq.
          rewrite length_app. simpl.
          apply insert_sorted_ptr_In in Hq. destruct Hq as [->|Hq]; [lia|].
          unfold list_valid in Hlv. rewrite Forall_forall in Hlv.
          specialize (Hlv q Hq). lia. }
        split; [|reflexivity].
        apply overwrite_record_values; now apply not_held_fresh.
    + inversion Hrun; subst r pm'. clear Hrun.
      unfold with_errno, list_valid.
      cbn [pwith_errno p_errno p_args p_heap p_list p_stdout deref
           m_errno m_args m_list m_stdout].
      split; [reflexivity|]. split; [reflexivity|].
      split; [reflexivity|]. split; [auto|].
      split; [tauto|]. split; [exact Hlv|].
      split; [|reflexivity].
      apply overwrite_record_values; assumption.
  - inversion Hrun; subst r pm'. clear Hrun.
    unfold with_errno, list_valid.
    cbn [pwith_errno p_errno p_args p_heap p_list p_stdout
         m_errno m_args m_list m_stdout].
    split; [reflexivity|]. split; [reflexivity|].
    split; [reflexivity|]. split; [auto|].
    split; [tauto|]. split; [exact Hlv|].
    split; [|reflexivity].
    apply overwrite_record_values; assumption.
Qed.

(** * Closed instances for duplicates and retention *)

(** Two mounts of type [ext4]: one entry, one line. *)
Lemma duplicates_give_one_line_witness :
  find_mounts (hdr := sample_mount_h) (linux (Some two_ext4_table))
    (initial_mem (no_filters mount_fstype))
  = Ret ["ext4"] (mkmem 0 (no_filters mount_fstype) ["ext4"] EmptyString)
  /\ In (present "/dev/sda1" "/" "ext4" "rw,relatime")
       (records_of (hdr := sample_mount_h) (linux (Some two_ext4_table)))
  /\ In (present "/dev/sda2" "/home" "ext4" "rw,relatime")
       (records_of (hdr := sample_mount_h) (linux (Some two_ext4_table)))
  /\ count_occ string_dec ["ext4"] "ext4" = 1%nat
  /\ exists st m,
       mountinfo (hdr := sample_mount_h) (linux (Some two_ext4_table))
         (no_filters mount_fstype) None None false
       = Exit st m
       /\ m_stdout m = "ext4" ++ nl.
Proof.
  assert (H : find_mounts (hdr := sample_mount_h)
                (linux (Some two_ext4_table))
                (initial_mem (no_filters mount_fstype))
              = Ret ["ext4"]
                  (mkmem 0 (no_filters mount_fstype) ["ext4"] EmptyString))
    by (vm_compute; reflexivity).
  assert (H1 : In (present "/dev/sda1" "/" "ext4" "rw,relatime")
                 (records_of (hdr := sample_mount_h)
                    (linux (Some two_ext4_table))))
    by (vm_compute; left; reflexivity).
  assert (H2 : In (present "/dev/sda2" "/home" "ext4" "rw,relatime")
                 (records_of (hdr := sample_mount_h)
                    (linux (Some two_ext4_table))))
    by (vm_compute; right; left; reflexivity).
  destruct (duplicates_give_one_line (hdr := sample_mount_h)
              (linux (Some two_ext4_table)) (no_filters mount_fstype)
              None None _ _ H)
    as (_ & _ & Hone & st & m & emitted & Hrun & Hout & Hem & _).
  split; [exact H|]. split; [exact H1|]. split; [exact H2|].
  split.
  - apply (Hone (present "/dev/sda2" "/home" "ext4" "rw,relatime") "ext4" H2).
    left. reflexivity.
  - exists st, m. split; [exact Hrun|]. rewrite Hout, Hem. reflexivity.
Defined.

(** A record in four blocks, the mount point selected: the list gets a
    pointer to a fifth block. *)
Lemma process_mount_retains_nothing_witness :
  valid (p_heap record_pmem) (Some 0%nat)
  /\ valid (p_heap record_pmem) (Some 1%nat)
  /\ valid (p_heap record_pmem) (Some 2%nat)
  /\ valid (p_heap record_pmem) (Some 3%nat)
  /\ list_valid record_pmem
  /\ not_held (p_list record_pmem) (Some 1%nat)
  /\ process_mount_ptr true (Some 0%nat) (Some 1%nat) (Some 2%nat)
       (Some 3%nat) record_pmem
     = PRet 0
         (mkpmem 0 (no_filters mount_to)
            ["/dev/sda1"; "/"; "ext4"; "rw"; "/"] [4%nat] EmptyString)
  /\ not_held [4%nat] (Some 1%nat)
  /\ map (str_at
            (overwrite_record ["/dev/sda1"; "/"; "ext4"; "rw"; "/"]
               (Some 0%nat) (Some 1%nat) (Some 2%nat) (Some 3%nat)
               "tmpfs"))
       [4%nat]
     = ["/"].
Proof.
  assert (V0 : valid (p_heap record_pmem) (Some 0%nat)) by (simpl; lia).
  assert (V1 : valid (p_heap record_pmem) (Some 1%nat)) by (simpl; lia).
  assert (V2 : valid (p_heap record_pmem) (Some 2%nat)) by (simpl; lia).
  assert (V3 : valid (p_heap record_pmem) (Some 3%nat)) by (simpl; lia).
  assert (Hlv : list_valid record_pmem) by constructor.
  assert (Hn : forall q, not_held (p_list record_pmem) (Some q))
    by (intros q H; exact H).
  assert (Hrun : process_mount_ptr true (Some 0%nat) (Some 1%nat)
                   (Some 2%nat) (Some 3%nat) record_pmem
                 = PRet 0
                     (mkpmem 0 (no_filters mount_to)
                        ["/dev/sda1"; "/"; "ext4"; "rw"; "/"] [4%nat]
                        EmptyString))
    by (vm_compute; reflexivity).
  destruct (process_mount_retains_nothing true (Some 0%nat) (Some 1%nat)
              (Some 2%nat) (Some 3%nat) record_pmem _ 0 "tmpfs"
              V0 V1 V2 V3 Hlv (Hn _) (Hn _) (Hn _) (Hn _) Hrun)
    as (_ & _ & _ & _ & (_ & Hto & _) & _ & Hover & _).
  split; [exact V0|]. split; [exact V1|]. split; [exact V2|].
  split; [exact V3|]. split; [exact Hlv|]. split; [apply Hn|].
  split; [exact Hrun|]. split; [exact Hto|]. exact Hover.
Defined.
